(** * group_by_day: grouping of same-day trades of a CoinTracking export

    A shallow embedding of [group_by_day.py] and the properties of its
    record model ([Record.__init__], [__str__], [__eq__], [__add__]) and of
    its single-pass reducer ([process_csv]).

    Modelling conventions.
    - Text is a [string] of one-byte characters: the model is exact for
      ASCII input ([str.lower], [str.strip] and the substring test [in] are
      the ASCII restrictions of the Python 3 methods).
    - [csv.reader] is the producer of the rows: the input of [process_csv]
      is the list of rows it yields, each a list of cells.
    - A raised exception is a value [Raise e] of the error monad [result].
    - [decimal.Decimal] is modelled in [Module Dec] under the default
      context, which the script never changes. *)

From Stdlib Require Import String Ascii List ZArith NArith Bool Lia.
From Stdlib Require Import DecimalString DecimalN.
Import ListNotations.
Open Scope list_scope.
Open Scope string_scope.

(** ** Exceptions and the error monad *)

Inductive exn : Type :=
| TypeError          (* a row unpacked into Record with a wrong number of cells *)
| InvalidOperation   (* decimal: bad literal, sNaN operand, Inf + -Inf *)
| Overflow           (* decimal: result above Emax *)
| ValueError.        (* process_csv: no header *)

Inductive result (A : Type) : Type :=
| Ok (a : A)
| Raise (e : exn).
Arguments Ok {A} a.
Arguments Raise {A} e.

Definition bind {A B : Type} (m : result A) (k : A -> result B) : result B :=
  match m with
  | Ok a => k a
  | Raise e => Raise e
  end.

Notation "x <- m ;; k" := (bind m (fun x => k))
  (at level 61, m at next level, right associativity).

(** ** Python string operations (ASCII) *)

Module PyStr.

(** [str.isspace] on one ASCII character: TAB..CR, FS..US and the blank. *)
Definition is_space (c : ascii) : bool :=
  let n := nat_of_ascii c in
  ((9 <=? n)%nat && (n <=? 13)%nat) || ((28 <=? n)%nat && (n <=? 32)%nat).

Definition is_digit (c : ascii) : bool :=
  let n := nat_of_ascii c in (48 <=? n)%nat && (n <=? 57)%nat.

Definition is_empty (s : string) : bool :=
  match s with EmptyString => true | String _ _ => false end.

(** Truth value of a [str]: non-empty. *)
Definition truthy (s : string) : bool := negb (is_empty s).

Fixpoint lstrip (s : string) : string :=
  match s with
  | EmptyString => EmptyString
  | String c t => if is_space c then lstrip t else s
  end.

Fixpoint rstrip (s : string) : string :=
  match s with
  | EmptyString => EmptyString
  | String c t =>
      let t' := rstrip t in
      if is_space c && is_empty t' then EmptyString else String c t'
  end.

(** [s.strip()] *)
Definition strip (s : string) : string := rstrip (lstrip s).

Definition lower_char (c : ascii) : ascii :=
  let n := nat_of_ascii c in
  if (65 <=? n)%nat && (n <=? 90)%nat then ascii_of_nat (n + 32) else c.

(** [s.lower()] *)
Fixpoint lower (s : string) : string :=
  match s with
  | EmptyString => EmptyString
  | String c t => String (lower_char c) (lower t)
  end.

(** [s.startswith(p)] *)
Fixpoint startswith (p s : string) : bool :=
  match p, s with
  | EmptyString, _ => true
  | String a p', String b s' => Ascii.eqb a b && startswith p' s'
  | String _ _, EmptyString => false
  end.

(** [needle in hay] *)
Fixpoint contains (needle hay : string) : bool :=
  startswith needle hay ||
  match hay with
  | EmptyString => false
  | String _ t => contains needle t
  end.

(** [s.split(' ')[0]]: the text before the first blank, all of [s] when it
    has none. *)
Fixpoint split_first (s : string) : string :=
  match s with
  | EmptyString => EmptyString
  | String c t => if Ascii.eqb c " " then EmptyString else String c (split_first t)
  end.

(** [sep.join(l)] *)
Fixpoint join (sep : string) (l : list string) : string :=
  match l with
  | [] => EmptyString
  | [x] => x
  | x :: t => (x ++ sep ++ join sep t)%string
  end.

(** [s.replace('_', '')] *)
Fixpoint remove_underscores (s : string) : string :=
  match s with
  | EmptyString => EmptyString
  | String c t =>
      if Ascii.eqb c "_" then remove_underscores t
      else String c (remove_underscores t)
  end.

(** Longest prefix of decimal digits and the rest. *)
Fixpoint span_digits (s : string) : string * string :=
  match s with
  | EmptyString => (EmptyString, EmptyString)
  | String c t =>
      if is_digit c then let '(d, r) := span_digits t in (String c d, r)
      else (EmptyString, s)
  end.

(** [int(s)] for a string of decimal digits ([0] for the empty string). *)
Definition N_of_digits (s : string) : N :=
  fold_left
    (fun acc c => (acc * 10 + N.of_nat (nat_of_ascii c - 48))%N)
    (list_ascii_of_string s) 0%N.

(** [str(n)] for a natural number. *)
Definition digits_of_N (n : N) : string :=
  NilZero.string_of_uint (N.to_uint n).

Definition Zlength (s : string) : Z := Z.of_nat (String.length s).

(** ["0" * k] *)
Definition zeros (k : Z) : string :=
  string_of_list_ascii (repeat "0"%char (Z.to_nat k)).

(** [s[:k]] and [s[k:]] for [0 <= k]. *)
Definition take (k : Z) (s : string) : string :=
  String.substring 0 (Z.to_nat k) s.
Definition drop (k : Z) (s : string) : string :=
  String.substring (Z.to_nat k) (String.length s - Z.to_nat k) s.

End PyStr.

(** ** decimal.Decimal under the default context

    The default context has [prec = 28], rounding [ROUND_HALF_EVEN],
    [Emax = 999999], [Emin = -999999], [clamp = 0], and traps
    [InvalidOperation], [DivisionByZero] and [Overflow]: a trapped signal is
    a raised exception, the other signals (Rounded, Inexact, Subnormal,
    Underflow, Clamped) only set flags and are not modelled. *)

Module Dec.
Import PyStr.

(** A finite number is [(-1)^sign * coeff * 10^exp]; the coefficient is kept
    by the library as a digit string without leading zeros, here as [N]. *)
Inductive Decimal : Type :=
| Finite (sign : bool) (coeff : N) (exp : Z)
| Infinity (sign : bool)
| NaN (sign : bool) (signaling : bool) (payload : N).

Definition prec : Z := 28.
Definition Emax : Z := 999999.
Definition Emin : Z := -999999.
Definition Etiny : Z := Emin - prec + 1.
Definition Etop : Z := Emax - prec + 1.

(** [bool(d)]: false exactly for a finite zero. *)
Definition truthy (d : Decimal) : bool :=
  match d with
  | Finite _ c _ => negb (c =? 0)%N
  | _ => true
  end.

Fixpoint ndigits_fuel (fuel : nat) (n : N) : Z :=
  match fuel with
  | O => 1
  | S f => if (n <? 10)%N then 1 else (1 + ndigits_fuel f (n / 10)%N)%Z
  end.

(** Number of decimal digits of the coefficient ([len(self._int)]; 1 for 0). *)
Definition ndigits (n : N) : Z := ndigits_fuel (N.to_nat (N.size n)) n.

(** *** Construction from a string: [Decimal(s)] *)

Definition parse_sign (s : string) : bool * string :=
  match s with
  | String "-" t => (true, t)
  | String "+" t => (false, t)
  | _ => (false, s)
  end.

(** The optional exponent [E[-+]?\d+] followed by the end of the string. *)
Definition parse_exp (s : string) : option Z :=
  match s with
  | EmptyString => Some 0%Z
  | String c t =>
      if Ascii.eqb (lower_char c) "e" then
        let '(sg, r) := parse_sign t in
        let '(d, rest) := span_digits r in
        if is_empty d || negb (is_empty rest) then None
        else Some (if sg then (- Z.of_N (N_of_digits d))%Z
                   else Z.of_N (N_of_digits d))
      else None
  end.

(** A number with at least one digit: integer part, optional fraction,
    optional exponent. *)
Definition parse_finite (s : string) : option (N * Z) :=
  let '(ip, r1) := span_digits s in
  let '(fp, r2) :=
    match r1 with
    | String "." t => span_digits t
    | _ => (EmptyString, r1)
    end in
  if is_empty ip && is_empty fp then None
  else
    match parse_exp r2 with
    | Some e => Some (N_of_digits (ip ++ fp), (e - Zlength fp)%Z)
    | None => None
    end.

(** [Inf], [Infinity], [NaN<digits>] and [sNaN<digits>], in any case. *)
Definition parse_special (sg : bool) (s : string) : option Decimal :=
  let l := lower s in
  if (l =? "inf") || (l =? "infinity") then Some (Infinity sg)
  else
    let '(signal, r) :=
      match l with
      | String "s" t => (true, t)
      | _ => (false, l)
      end in
    if startswith "nan" r then
      let '(d, rest) := span_digits (drop 3 r) in
      if is_empty rest then Some (NaN sg signal (N_of_digits d)) else None
    else None.

(** [Decimal(s)] for a [str]: surrounding whitespace and underscores are
    removed; an invalid literal raises [InvalidOperation].  The construction
    is exact: the context does not apply. *)
Definition of_string (s : string) : result Decimal :=
  let '(sg, r) := parse_sign (remove_underscores (strip s)) in
  match parse_finite r with
  | Some (c, e) => Ok (Finite sg c e)
  | None =>
      match parse_special sg r with
      | Some d => Ok d
      | None => Raise InvalidOperation
      end
  end.

(** *** Rounding to the context: [_fix] *)

(** Drop the [k] low digits of [c], rounding half to even. *)
Definition round_half_even (c : N) (k : Z) : N :=
  let p := (10 ^ Z.to_N k)%N in
  let q := (c / p)%N in
  let r := (c mod p)%N in
  if (p <? 2 * r)%N || ((2 * r =? p)%N && N.odd q) then (q + 1)%N else q.

Definition fix_finite (s : bool) (c : N) (e : Z) : result Decimal :=
  if (c =? 0)%N then Ok (Finite s 0 (Z.min (Z.max e Etiny) Emax))
  else
    let exp_min0 := (ndigits c + e - prec)%Z in
    if (Etop <? exp_min0)%Z then Raise Overflow
    else
      let exp_min := Z.max exp_min0 Etiny in
      if (e <? exp_min)%Z then
        let c1 := round_half_even c (exp_min - e) in
        let '(c2, e2) :=
          if (prec <? ndigits c1)%Z then ((c1 / 10)%N, (exp_min + 1)%Z)
          else (c1, exp_min) in
        if (Etop <? e2)%Z then Raise Overflow else Ok (Finite s c2 e2)
      else Ok (Finite s c e).

(** A NaN keeps at most [prec] low digits of its payload. *)
Definition fix_nan (s : bool) (payload : N) : Decimal :=
  NaN s false
    (if (prec <? ndigits payload)%Z then (payload mod 10 ^ Z.to_N prec)%N
     else payload).

(** *** Addition: [a + b] *)

Definition signed (s : bool) (c : N) : Z :=
  if s then (- Z.of_N c)%Z else Z.of_N c.

(** The exact sum of two finite numbers at the smaller exponent, as a signed
    coefficient. *)
Definition exact_sum (s1 : bool) (c1 : N) (e1 : Z)
                     (s2 : bool) (c2 : N) (e2 : Z) : Z :=
  let e := Z.min e1 e2 in
  (signed s1 c1 * 10 ^ (e1 - e) + signed s2 c2 * 10 ^ (e2 - e))%Z.

(** NaNs first (a signaling one raises, a quiet one is returned), then
    infinities ([Inf + -Inf] raises), then the finite case: the exact sum at
    the smaller exponent, rounded to the context.  A zero sum is negative
    only when both operands are negative zeros. *)
Definition add (a b : Decimal) : result Decimal :=
  match a, b with
  | NaN _ true _, _ => Raise InvalidOperation
  | _, NaN _ true _ => Raise InvalidOperation
  | NaN s false p, _ => Ok (fix_nan s p)
  | _, NaN s false p => Ok (fix_nan s p)
  | Infinity s1, Infinity s2 =>
      if xorb s1 s2 then Raise InvalidOperation else Ok a
  | Infinity _, Finite _ _ _ => Ok a
  | Finite _ _ _, Infinity _ => Ok b
  | Finite s1 c1 e1, Finite s2 c2 e2 =>
      let v := exact_sum s1 c1 e1 s2 c2 e2 in
      let s :=
        if (v =? 0)%Z then
          (if (c1 =? 0)%N && (c2 =? 0)%N then s1 && s2 else false)
        else (v <? 0)%Z in
      fix_finite s (Z.to_N (Z.abs v)) (Z.min e1 e2)
  end.

(** *** Conversion to text: [str(d)] (scientific string) *)

Definition format_plus_d (z : Z) : string :=
  if (z <? 0)%Z then "-" ++ digits_of_N (Z.to_N (- z))
  else "+" ++ digits_of_N (Z.to_N z).

Definition to_str (d : Decimal) : string :=
  match d with
  | Infinity s => (if s then "-" else EmptyString) ++ "Infinity"
  | NaN s signal p =>
      (if s then "-" else EmptyString) ++ (if signal then "sNaN" else "NaN")
      ++ (if (p =? 0)%N then EmptyString else digits_of_N p)
  | Finite s c e =>
      let int_ := digits_of_N c in
      let leftdigits := (e + Zlength int_)%Z in
      let dotplace :=
        if (e <=? 0)%Z && (-6 <? leftdigits)%Z then leftdigits else 1%Z in
      let '(intpart, fracpart) :=
        if (dotplace <=? 0)%Z then ("0", "." ++ zeros (- dotplace) ++ int_)
        else if (Zlength int_ <=? dotplace)%Z
             then (int_ ++ zeros (dotplace - Zlength int_), EmptyString)
             else (take dotplace int_, "." ++ drop dotplace int_) in
      let exp :=
        if (leftdigits =? dotplace)%Z then EmptyString
        else "E" ++ format_plus_d (leftdigits - dotplace) in
      (if s then "-" else EmptyString) ++ intpart ++ fracpart ++ exp
  end.

End Dec.

(** ** The record model: [class Record] *)

(** What the constructor receives for an amount: a cell of the row (a
    [str]), or, from [__add__], a [Decimal] or [None]. *)
Inductive amount_arg : Type :=
| AStr (s : string)
| ADec (d : Dec.Decimal)
| ANone.

(** Truth value of the argument, as tested by [if buyamt]. *)
Definition arg_truthy (a : amount_arg) : bool :=
  match a with
  | AStr s => PyStr.truthy s
  | ADec d => Dec.truthy d
  | ANone => false
  end.

(** [Decimal(x)]: parsing for a [str], the same value for a [Decimal]. *)
Definition Decimal_of_arg (a : amount_arg) : result Dec.Decimal :=
  match a with
  | AStr s => Dec.of_string s
  | ADec d => Ok d
  | ANone => Raise TypeError
  end.

(** [Decimal(x) if x else None] *)
Definition amount_of_arg (a : amount_arg) : result (option Dec.Decimal) :=
  if arg_truthy a then d <- Decimal_of_arg a ;; Ok (Some d) else Ok None.

Record record : Type := mkRecord {
  record_type : string;
  buyamt : option Dec.Decimal;
  buycur : string;
  sellamt : option Dec.Decimal;
  sellcur : string;
  fee : option Dec.Decimal;
  fee_cur : string;
  exchange : string;
  group : string;
  comment : string;
  date : string;
  tx_id : string
}.

Definition exchange_exceptions : list string := ["Wallet"; "Transaction"].

(** [Record.__init__] *)
Definition Record_init (record_type_ : string) (buyamt_ : amount_arg)
    (buycur_ : string) (sellamt_ : amount_arg) (sellcur_ : string)
    (fee_ : amount_arg) (fee_cur_ exchange_ group_ comment_ date_ tx_id_ : string)
    : result record :=
  b <- amount_of_arg buyamt_ ;;
  s <- amount_of_arg sellamt_ ;;
  f <- amount_of_arg fee_ ;;
  Ok {| record_type := record_type_;
        buyamt := b;
        buycur := buycur_;
        sellamt := s;
        sellcur := sellcur_;
        fee := f;
        fee_cur := fee_cur_;
        exchange := exchange_;
        group := group_;
        comment := comment_;
        date := PyStr.strip date_;
        tx_id := tx_id_ |}.

(** [str(x) if x is not None else ''] *)
Definition amount_str (a : option Dec.Decimal) : string :=
  match a with
  | Some d => Dec.to_str d
  | None => EmptyString
  end.

(** The twelve values formatted by [Record.__str__], in order. *)
Definition Record_fields (r : record) : list string :=
  [record_type r; amount_str (buyamt r); buycur r;
   amount_str (sellamt r); sellcur r; amount_str (fee r); fee_cur r;
   exchange r; group r; comment r; date r; tx_id r].

(** [Record.__str__] *)
Definition Record_str (r : record) : string :=
  PyStr.join "," (Record_fields r).

(** [any(exc.lower() in self.exchange.lower() for exc in exchange_exceptions)] *)
Definition exchange_excepted (e : string) : bool :=
  existsb (fun exc => PyStr.contains (PyStr.lower exc) (PyStr.lower e))
          exchange_exceptions.

(** [Record.__eq__(self, other)] *)
Definition Record_eq (self other : record) : bool :=
  if exchange_excepted (exchange self) then false
  else
    (record_type self =? record_type other) &&
    (buycur self =? buycur other) &&
    (sellcur self =? sellcur other) &&
    (exchange self =? exchange other) &&
    (fee_cur self =? fee_cur other) &&
    (PyStr.split_first (date self) =? PyStr.split_first (date other)).

(** [None if x is None or y is None else (x + y)] *)
Definition amount_sum (x y : option Dec.Decimal) : result amount_arg :=
  match x, y with
  | Some a, Some b => d <- Dec.add a b ;; Ok (ADec d)
  | _, _ => Ok ANone
  end.

(** [Record.__add__(self, other)] *)
Definition Record_add (self other : record) : result record :=
  let group_ := if PyStr.truthy (group self) then group self else group other in
  let comment_ :=
    if PyStr.truthy (comment self) then comment self else comment other in
  buyamt_sum <- amount_sum (buyamt self) (buyamt other) ;;
  sellamt_sum <- amount_sum (sellamt self) (sellamt other) ;;
  fee_sum <- amount_sum (fee self) (fee other) ;;
  Record_init (record_type self) buyamt_sum (buycur self)
              sellamt_sum (sellcur self) fee_sum
              (fee_cur self) (exchange self) group_ comment_
              (date self) (tx_id self).

(** ** The reducer: [process_csv] *)

Definition row : Type := list string.

(** [Record( *row )]: exactly twelve cells, else [TypeError]. *)
Definition Record_of_row (r : row) : result record :=
  match r with
  | [c1; c2; c3; c4; c5; c6; c7; c8; c9; c10; c11; c12] =>
      Record_init c1 (AStr c2) c3 (AStr c4) c5 (AStr c6) c7 c8 c9 c10 c11 c12
  | _ => Raise TypeError
  end.

(** The local variables of [process_csv]: [output] can hold [None], which
    the final [output.append(previous)] stores when no record was seen. *)
Record loop_state : Type := mkState {
  output : list (option record);
  previous : option record;
  header : option row
}.

Definition initial_state : loop_state :=
  {| output := []; previous := None; header := None |}.

(** [record.record_type == "Lost" and record.exchange == "Binance"
     and "_fee" in record.tx_id] *)
Definition is_lost_fee (r : record) : bool :=
  (record_type r =? "Lost") && (exchange r =? "Binance") &&
  PyStr.contains "_fee" (tx_id r).

(** One iteration of [for row in csvdata]. *)
Definition loop_body (st : loop_state) (r : row) : result loop_state :=
  match header st with
  | None =>
      Ok {| output := output st; previous := previous st; header := Some r |}
  | Some _ =>
      rec <- Record_of_row r ;;
      match previous st with
      | None =>
          Ok {| output := output st; previous := Some rec; header := header st |}
      | Some prev =>
          if is_lost_fee rec then Ok st
          else if Record_eq rec prev then
            sum <- Record_add prev rec ;;
            Ok {| output := output st; previous := Some sum;
                  header := header st |}
          else
            Ok {| output := output st ++ [Some prev]; previous := Some rec;
                  header := header st |}
      end
  end.

Fixpoint run_loop (rows : list row) (st : loop_state) : result loop_state :=
  match rows with
  | [] => Ok st
  | r :: rest => st' <- loop_body st r ;; run_loop rest st'
  end.

(** The unconditional [output.append(previous)] after the loop. *)
Definition flush (st : loop_state) : loop_state :=
  {| output := output st ++ [previous st]; previous := previous st;
     header := header st |}.

(** The reducer: the loop and the final append. *)
Definition reduce_rows (rows : list row) : result loop_state :=
  st <- run_loop rows initial_state ;;
  Ok (flush st).

(** [str(record)] for an element of [output]; [str(None)] is ["None"]. *)
Definition output_str (o : option record) : string :=
  match o with
  | Some r => Record_str r
  | None => "None"
  end.

Definition newline : string := String (ascii_of_nat 10) EmptyString.

Fixpoint write_records (out : list (option record)) : string :=
  match out with
  | [] => EmptyString
  | o :: rest => output_str o ++ newline ++ write_records rest
  end.

(** The second [with] block: the header line, then one line per element of
    [output]; the result also carries the count printed at the end. *)
Definition write_output (st : loop_state) : result (string * nat) :=
  match header st with
  | Some h =>
      Ok (PyStr.join "," h ++ newline ++ write_records (output st),
          List.length (output st))
  | None => Raise ValueError
  end.

(** [process_csv]: from the rows of the input file to the text written to
    the output file and the count printed at the end. *)
Definition process_csv (rows : list row) : result (string * nat) :=
  st <- reduce_rows rows ;;
  write_output st.

(** ** Notions used to state the properties *)

(** Every data row turned into a record, in input order. *)
Fixpoint records_of_rows (rows : list row) : result (list record) :=
  match rows with
  | [] => Ok []
  | r :: rest =>
      rec <- Record_of_row r ;;
      recs <- records_of_rows rest ;;
      Ok (rec :: recs)
  end.

(** The records held by [output] (its [None] entries left out). *)
Definition emitted (out : list (option record)) : list record :=
  flat_map (fun o => match o with Some r => [r] | None => [] end) out.

(** A record that came out of the constructor. *)
Definition constructed (r : record) : Prop :=
  exists t b c s sc f fc e g cm d tx,
    Record_init t b c s sc f fc e g cm d tx = Ok r.

(** The fields that [__add__] hands over from the accumulator. *)
Definition key (r : record) : list string :=
  [record_type r; buycur r; sellcur r; fee_cur r; exchange r; date r; tx_id r].

(** Whitespace at either end of a string. *)
Definition first_is_space (s : string) : bool :=
  match s with
  | EmptyString => false
  | String c _ => PyStr.is_space c
  end.

Fixpoint last_is_space (s : string) : bool :=
  match s with
  | EmptyString => false
  | String c EmptyString => PyStr.is_space c
  | String _ t => last_is_space t
  end.

Definition trimmed (s : string) : Prop :=
  first_is_space s = false /\ last_is_space s = false.

(** [w] occurs in [e] up to the case of letters. *)
Definition ci_substring (w e : string) : Prop :=
  exists p m s, e = p ++ m ++ s /\ PyStr.lower m = PyStr.lower w.

Definition no_blank (p : string) : Prop :=
  forall a b, p <> a ++ " " ++ b.

(** [p] is the date-part of [d]: the text before the first blank, or all of
    [d] when it has no blank. *)
Definition date_part (d p : string) : Prop :=
  no_blank p /\ (d = p \/ exists rest, d = p ++ " " ++ rest).

(** The members of a group after its first member [h]: dropped fee lines
    and records that are in the same group as [h]. *)
Definition group_members (h : record) (t : list record) : Prop :=
  Forall (fun x => is_lost_fee x = true \/ Record_eq x h = true) t.

(** [rep] represents the group [g]: it has the key fields of the first
    member of [g]. *)
Definition represents (rep : record) (g : list record) : Prop :=
  exists h t, g = h :: t /\ key rep = key h /\ group_members h t.

(** The first member of a group that follows another group is neither a
    dropped fee line nor in the group of the first member before it. *)
Fixpoint separated (gs : list (list record)) : Prop :=
  match gs with
  | [] => True
  | g1 :: rest =>
      match g1, rest with
      | h1 :: _, (h2 :: _) :: _ =>
          is_lost_fee h2 = false /\ Record_eq h2 h1 = false
      | _, _ => True
      end /\ separated rest
  end.

(** *** The reducer with the accumulator as the left operand

    The same loop, where the test [record == previous] is replaced by the
    test [sameGroup(accumulator, r)] of the accumulator against the incoming
    record. *)

Definition loop_body_acc_left (st : loop_state) (r : row) : result loop_state :=
  match header st with
  | None =>
      Ok {| output := output st; previous := previous st; header := Some r |}
  | Some _ =>
      rec <- Record_of_row r ;;
      match previous st with
      | None =>
          Ok {| output := output st; previous := Some rec; header := header st |}
      | Some prev =>
          if is_lost_fee rec then Ok st
          else if Record_eq prev rec then
            sum <- Record_add prev rec ;;
            Ok {| output := output st; previous := Some sum;
                  header := header st |}
          else
            Ok {| output := output st ++ [Some prev]; previous := Some rec;
                  header := header st |}
      end
  end.

Fixpoint run_loop_acc_left (rows : list row) (st : loop_state)
  : result loop_state :=
  match rows with
  | [] => Ok st
  | r :: rest => st' <- loop_body_acc_left st r ;; run_loop_acc_left rest st'
  end.

Definition reduce_rows_acc_left (rows : list row) : result loop_state :=
  st <- run_loop_acc_left rows initial_state ;;
  Ok (flush st).

Definition process_csv_acc_left (rows : list row) : result (string * nat) :=
  st <- reduce_rows_acc_left rows ;;
  write_output st.

(** *** Exactness of a merged amount *)

(** [signed s c * 10 ^ (e - e0)]: the value of a finite number in units of
    [10 ^ e0], for [e0 <= e]. *)
Definition scaled (s : bool) (c : N) (e e0 : Z) : Z :=
  (Dec.signed s c * 10 ^ (e - e0))%Z.

(** [z] is the exact sum of [x] and [y]: equal values, compared in units of
    the smallest of the three exponents. *)
Definition exact_sum_of (x y z : Dec.Decimal) : Prop :=
  match x, y, z with
  | Dec.Finite s1 c1 e1, Dec.Finite s2 c2 e2, Dec.Finite s3 c3 e3 =>
      let e0 := Z.min (Z.min e1 e2) e3 in
      (scaled s3 c3 e3 e0 = scaled s1 c1 e1 e0 + scaled s2 c2 e2 e0)%Z
  | _, _, _ => False
  end.

(** The merged amount as the specification words it: absent when an operand
    is absent, else the exact sum. *)
Definition merged_exact (x y z : option Dec.Decimal) : Prop :=
  match x, y with
  | Some dx, Some dy => exists dz, z = Some dz /\ exact_sum_of dx dy dz
  | _, _ => z = None
  end.

(** The value [|v| * 10 ^ e] can be written in the default context: with a
    coefficient of at most [prec] digits and an exponent not below
    [Etiny]. *)
Definition representable (v e : Z) : Prop :=
  exists (c' : N) (e' : Z),
    (Z.of_N c' < 10 ^ Dec.prec)%Z /\ (Dec.Etiny <= e')%Z /\
    (Z.abs v * 10 ^ (e - Z.min e e')
     = Z.of_N c' * 10 ^ (e' - Z.min e e'))%Z.

(** The merged amount as the code computes it by design: absent when an
    operand is absent; for finite operands whose exact sum is not zero and
    can be written in the default context, present and equal to that exact
    sum, and kept at the smaller exponent when the sum has at most [prec]
    digits there. *)
Definition merged_in_precision (x y z : option Dec.Decimal) : Prop :=
  (x = None \/ y = None -> z = None) /\
  (forall s1 c1 e1 s2 c2 e2,
     x = Some (Dec.Finite s1 c1 e1) ->
     y = Some (Dec.Finite s2 c2 e2) ->
     let v := Dec.exact_sum s1 c1 e1 s2 c2 e2 in
     (v <> 0)%Z ->
     representable v (Z.min e1 e2) ->
     merged_exact x y z /\
     ((Z.abs v < 10 ^ Dec.prec)%Z -> (Dec.Etiny <= Z.min e1 e2)%Z ->
      z = Some (Dec.Finite (v <? 0)%Z (Z.to_N (Z.abs v)) (Z.min e1 e2)))).

(** *** All-whitespace strings *)

Fixpoint all_space (s : string) : bool :=
  match s with
  | EmptyString => true
  | String c t => PyStr.is_space c && all_space t
  end.

(** ** Sample rows *)

(** An empty cell. *)
Definition no_value : string := EmptyString.

Definition sample_header : row :=
  ["Type"; "Buy"; "Cur."; "Sell"; "Cur."; "Fee"; "Cur."; "Exchange";
   "Group"; "Comment"; "Date"; "Tx-ID"].

Definition row_trade_1331 : row :=
  ["Trade"; "1"; "BTC"; "2"; "XMR"; "0.1"; "BTC"; "Poloniex";
   no_value; no_value; "30.08.2016 13:31"; "tx1"].

Definition row_trade_1400 : row :=
  ["Trade"; "3"; "BTC"; "4"; "XMR"; "0.2"; "BTC"; "Poloniex";
   no_value; no_value; "30.08.2016 14:00"; "tx1"].

Definition row_trade_next_day : row :=
  ["Trade"; "5"; "BTC"; "6"; "XMR"; "0.3"; "BTC"; "Poloniex"; "g"; "c";
   " 31.08.2016 09:15 "; "tx2"].

Definition row_lost_fee : row :=
  ["Lost"; no_value; no_value; "0.00075"; "BNB"; no_value; no_value;
   "Binance"; no_value; no_value; "30.08.2021 13:31"; "123_fee"].

Definition row_lost : row :=
  ["Lost"; no_value; no_value; "0.5"; "BNB"; no_value; no_value;
   "Binance"; no_value; no_value; "30.08.2021 18:02"; "124"].

Definition row_wallet : row :=
  ["Deposit"; "1.5"; "BTC"; no_value; no_value; no_value; no_value;
   "My Wallet"; no_value; no_value; "30.08.2016 13:31"; "tx9"].





(** ** Notions for the properties of whole groups *)

(** The accumulator after the records [l] are merged into [acc] one after
    the other: the repeated [previous += record]. *)
Fixpoint merge_all (acc : record) (l : list record) : result record :=
  match l with
  | [] => Ok acc
  | x :: t => sum <- Record_add acc x ;; merge_all sum t
  end.

(** The members of a group that are merged: all but the dropped fee lines. *)
Definition merged_members (t : list record) : list record :=
  filter (fun x => negb (is_lost_fee x)) t.

(** [rep] is the group [g] merged from the left: its first member with
    its later members, fee lines apart, added one after the other. *)
Definition folds_to (rep : record) (g : list record) : Prop :=
  exists h t,
    g = h :: t /\ group_members h t /\
    merge_all h (merged_members t) = Ok rep.

(** No record after the first is a fee line or in the group of the record
    before it. *)
Fixpoint adjacent_distinct (l : list record) : Prop :=
  match l with
  | [] => True
  | x :: t =>
      match t with
      | y :: _ => is_lost_fee y = false /\ Record_eq y x = false
      | [] => True
      end /\ adjacent_distinct t
  end.

(** The first non-empty string of a list, the empty string when it has
    none. *)
Fixpoint first_nonempty (l : list string) : string :=
  match l with
  | [] => EmptyString
  | s :: t => if PyStr.truthy s then s else first_nonempty t
  end.

(** ** Notions for the round trip of the written values *)

(** Only decimal digits in the string. *)
Fixpoint all_digits (s : string) : bool :=
  match s with
  | EmptyString => true
  | String c t => PyStr.is_digit c && all_digits t
  end.

(** Neither whitespace nor an underscore in the string. *)
Fixpoint plain_text (s : string) : bool :=
  match s with
  | EmptyString => true
  | String c t =>
      negb (PyStr.is_space c) && negb (Ascii.eqb c "_") && plain_text t
  end.

Definition no_leading_digit (s : string) : bool :=
  match s with
  | EmptyString => true
  | String c _ => negb (PyStr.is_digit c)
  end.

(** One step of [int(s)]: the value so far and the next digit. *)
Definition digit_step (acc : N) (c : ascii) : N :=
  (acc * 10 + N.of_nat (nat_of_ascii c - 48))%N.

(** * Properties *)

(** ** The error monad *)

Lemma bind_ok {A B : Type} (m : result A) (k : A -> result B) (b : B) :
  bind m k = Ok b -> exists a, m = Ok a /\ k a = Ok b.
Proof.
  destruct m as [a|e]; simpl; intros H; [exists a; auto | discriminate].
Qed.

Ltac inv_bind H :=
  let x := fresh "x" in
  let Hx := fresh "Hx" in
  apply bind_ok in H; destruct H as (x & Hx & H).

(** Run a computation that succeeds and pass its value on. *)
Ltac with_ok t k :=
  let r := eval vm_compute in t in
  match r with
  | Ok ?x => k x
  end.

(** ** Strings *)

Section StringFacts.
Import PyStr.

Lemma append_nil_r (s : string) : s ++ EmptyString = s.
Proof. induction s; simpl; congruence. Qed.

Lemma append_assoc (a b c : string) : (a ++ b) ++ c = a ++ b ++ c.
Proof. induction a; simpl; congruence. Qed.

Lemma startswith_iff (p s : string) :
  startswith p s = true <-> exists t, s = p ++ t.
Proof.
  revert s; induction p as [|a p IH]; intros s; simpl.
  - split; [exists s; reflexivity | reflexivity].
  - destruct s as [|b s].
    + split; [discriminate | intros [t Ht]; discriminate].
    + rewrite andb_true_iff, Ascii.eqb_eq, IH. split.
      * intros [-> [t ->]]. exists t. reflexivity.
      * intros [t Ht]. injection Ht as -> ->. split; [reflexivity | eauto].
Qed.

Lemma contains_iff (n h : string) :
  contains n h = true <-> exists p t, h = p ++ n ++ t.
Proof.
  induction h as [|c h IH].
  - simpl. rewrite orb_false_r, startswith_iff. split.
    + intros [t Ht]. exists EmptyString, t. exact Ht.
    + intros (p & t & Ht). destruct p; [exists t; exact Ht | discriminate].
  - change (contains n (String c h))
      with (startswith n (String c h) || contains n h).
    rewrite orb_true_iff, startswith_iff, IH. split.
    + intros [[t Ht] | (p & t & Ht)].
      * exists EmptyString, t. exact Ht.
      * exists (String c p), t. simpl. congruence.
    + intros (p & t & Ht). destruct p as [|a p]; simpl in Ht.
      * left. exists t. exact Ht.
      * right. injection Ht as _ Ht. eauto.
Qed.

Lemma lower_app (a b : string) : lower (a ++ b) = lower a ++ lower b.
Proof. induction a; simpl; congruence. Qed.

Lemma lower_split (s x y : string) :
  lower s = x ++ y -> exists a b, s = a ++ b /\ lower a = x /\ lower b = y.
Proof.
  revert s; induction x as [|c x IH]; intros s H; simpl in H.
  - exists EmptyString, s. auto.
  - destruct s as [|d s]; simpl in H; [discriminate|].
    injection H as Hc Hs. destruct (IH _ Hs) as (a & b & -> & Ha & Hb).
    exists (String d a), b. simpl. repeat split; congruence.
Qed.

Lemma contains_lower_iff (w e : string) :
  contains (lower w) (lower e) = true <-> ci_substring w e.
Proof.
  rewrite contains_iff. split.
  - intros (p & t & H).
    destruct (lower_split _ _ _ H) as (a & r & -> & _ & Hr).
    destruct (lower_split _ _ _ Hr) as (m & s & -> & Hm & _).
    exists a, m, s. auto.
  - intros (p & m & s & -> & Hm).
    exists (lower p), (lower s). rewrite !lower_app. congruence.
Qed.

Lemma exchange_excepted_iff (e : string) :
  exchange_excepted e = true <->
  ci_substring "Wallet" e \/ ci_substring "Transaction" e.
Proof.
  unfold exchange_excepted, exchange_exceptions.
  cbn [existsb]. rewrite orb_false_r, orb_true_iff, !contains_lower_iff.
  reflexivity.
Qed.

Lemma no_blank_cons (c : ascii) (p : string) :
  no_blank (String c p) -> c <> " "%char /\ no_blank p.
Proof.
  intros H. split.
  - intros ->. apply (H EmptyString p). reflexivity.
  - intros a b ->. apply (H (String c a) b). reflexivity.
Qed.

Lemma split_first_no_blank (d : string) : no_blank (split_first d).
Proof.
  induction d as [|c d IH]; intros a b H; simpl in H.
  - destruct a; discriminate.
  - destruct (Ascii.eqb_spec c " ") as [->|Hc].
    + destruct a; discriminate.
    + destruct a as [|x a]; simpl in H.
      * injection H as -> _. congruence.
      * injection H as _ H. exact (IH _ _ H).
Qed.

Lemma split_first_prefix (d : string) :
  d = split_first d \/ exists rest, d = split_first d ++ " " ++ rest.
Proof.
  induction d as [|c d IH]; simpl.
  - left. reflexivity.
  - destruct (Ascii.eqb_spec c " ") as [->|Hc].
    + right. exists d. reflexivity.
    + destruct IH as [IH | [rest IH]].
      * left. f_equal. exact IH.
      * right. exists rest. simpl. f_equal. exact IH.
Qed.

Lemma split_first_of_no_blank (p rest : string) :
  no_blank p ->
  split_first p = p /\ split_first (p ++ " " ++ rest) = p.
Proof.
  induction p as [|c p IH]; intros H; simpl.
  - auto.
  - apply no_blank_cons in H. destruct H as [Hc Hp].
    destruct (Ascii.eqb_spec c " ") as [->|_]; [congruence|].
    destruct (IH Hp) as [H1 H2]. split; f_equal; assumption.
Qed.

Lemma date_part_split_first (d : string) : date_part d (split_first d).
Proof.
  split; [apply split_first_no_blank | apply split_first_prefix].
Qed.

Lemma date_part_unique (d p : string) : date_part d p -> p = split_first d.
Proof.
  intros [Hn [-> | [rest ->]]]; symmetry.
  - apply (split_first_of_no_blank p EmptyString), Hn.
  - apply (split_first_of_no_blank p rest), Hn.
Qed.

Lemma lstrip_first (s : string) : first_is_space (lstrip s) = false.
Proof.
  induction s as [|c s IH]; simpl; [reflexivity|].
  destruct (is_space c) eqn:E; [exact IH | simpl; exact E].
Qed.

Lemma rstrip_first (s : string) :
  first_is_space s = false -> first_is_space (rstrip s) = false.
Proof.
  destruct s as [|c s]; simpl; [reflexivity|].
  intros E. rewrite E. simpl. exact E.
Qed.

Lemma rstrip_last (s : string) : last_is_space (rstrip s) = false.
Proof.
  induction s as [|c s IH]; simpl; [reflexivity|].
  destruct (is_space c && is_empty (rstrip s)) eqn:E; [reflexivity|].
  destruct (rstrip s) as [|d r] eqn:Er.
  - simpl. rewrite andb_true_r in E. exact E.
  - exact IH.
Qed.

Lemma lstrip_id (s : string) : first_is_space s = false -> lstrip s = s.
Proof.
  destruct s as [|c s]; simpl; [reflexivity|]. intros ->. reflexivity.
Qed.

Lemma rstrip_id (s : string) : last_is_space s = false -> rstrip s = s.
Proof.
  induction s as [|c s IH]; [reflexivity|].
  destruct s as [|d s].
  - simpl. intros ->. reflexivity.
  - intros H. change (last_is_space (String d s) = false) in H.
    change (rstrip (String c (String d s)))
      with (if is_space c && is_empty (rstrip (String d s))
            then EmptyString else String c (rstrip (String d s))).
    rewrite (IH H). simpl. rewrite andb_false_r. reflexivity.
Qed.

Lemma strip_trimmed (s : string) : trimmed (strip s).
Proof.
  split; [apply rstrip_first, lstrip_first | apply rstrip_last].
Qed.

Lemma strip_id (s : string) : trimmed s -> strip s = s.
Proof.
  intros [H1 H2]. unfold strip. rewrite (lstrip_id _ H1). apply rstrip_id, H2.
Qed.

Lemma strip_idempotent (s : string) : strip (strip s) = strip s.
Proof. apply strip_id, strip_trimmed. Qed.

End StringFacts.

(** ** The record model *)

Lemma Record_init_inv t b c s sc f fc e g cm d tx r :
  Record_init t b c s sc f fc e g cm d tx = Ok r ->
  exists b' s' f',
    amount_of_arg b = Ok b' /\ amount_of_arg s = Ok s' /\
    amount_of_arg f = Ok f' /\
    r = mkRecord t b' c s' sc f' fc e g cm (PyStr.strip d) tx.
Proof.
  unfold Record_init. intros H.
  inv_bind H. inv_bind H. inv_bind H. injection H as <-.
  eauto 10.
Qed.

Lemma constructed_trimmed (r : record) : constructed r -> trimmed (date r).
Proof.
  intros (t & b & c & s & sc & f & fc & e & g & cm & d & tx & H).
  apply Record_init_inv in H. destruct H as (b' & s' & f' & _ & _ & _ & ->).
  simpl. apply strip_trimmed.
Qed.

Lemma Record_of_row_constructed (rw : row) (r : record) :
  Record_of_row rw = Ok r -> constructed r.
Proof.
  unfold Record_of_row. intros H.
  do 12 (destruct rw as [|? rw]; [discriminate|]).
  destruct rw; [|discriminate].
  unfold constructed. eauto 15.
Qed.

Lemma Record_add_inv (a b m : record) :
  Record_add a b = Ok m ->
  exists x y z,
    amount_sum (buyamt a) (buyamt b) = Ok x /\
    amount_sum (sellamt a) (sellamt b) = Ok y /\
    amount_sum (fee a) (fee b) = Ok z /\
    Record_init (record_type a) x (buycur a) y (sellcur a) z
      (fee_cur a) (exchange a)
      (if PyStr.truthy (group a) then group a else group b)
      (if PyStr.truthy (comment a) then comment a else comment b)
      (date a) (tx_id a) = Ok m.
Proof.
  unfold Record_add. intros H.
  inv_bind H. inv_bind H. inv_bind H. eauto 10.
Qed.

Lemma Record_add_constructed (a b m : record) :
  Record_add a b = Ok m -> constructed m.
Proof.
  intros H. apply Record_add_inv in H.
  destruct H as (x & y & z & _ & _ & _ & H).
  unfold constructed. eauto 15.
Qed.

(** What [__add__] takes from the accumulator, for any two records. *)
Lemma Record_add_fields (a b m : record) :
  Record_add a b = Ok m ->
  record_type m = record_type a /\ buycur m = buycur a /\
  sellcur m = sellcur a /\ exchange m = exchange a /\
  fee_cur m = fee_cur a /\ date m = PyStr.strip (date a) /\
  tx_id m = tx_id a /\
  group m = (if PyStr.truthy (group a) then group a else group b) /\
  comment m = (if PyStr.truthy (comment a) then comment a else comment b).
Proof.
  intros H. apply Record_add_inv in H.
  destruct H as (x & y & z & _ & _ & _ & H).
  apply Record_init_inv in H. destruct H as (? & ? & ? & _ & _ & _ & ->).
  simpl. repeat split; reflexivity.
Qed.

Lemma Record_add_key (a b m : record) :
  constructed a -> Record_add a b = Ok m -> key m = key a.
Proof.
  intros Ha H. apply constructed_trimmed, strip_id in Ha.
  apply Record_add_fields in H.
  destruct H as (H1 & H2 & H3 & H4 & H5 & H6 & H7 & _).
  unfold key. rewrite H1, H2, H3, H4, H5, H6, H7, Ha. reflexivity.
Qed.

Lemma key_inv (a b : record) :
  key a = key b ->
  record_type a = record_type b /\ buycur a = buycur b /\
  sellcur a = sellcur b /\ fee_cur a = fee_cur b /\
  exchange a = exchange b /\ date a = date b /\ tx_id a = tx_id b.
Proof.
  unfold key. intros H. injection H. intros. repeat split; assumption.
Qed.

(** [__eq__] looks at key fields only. *)
Lemma Record_eq_key_r (x a b : record) :
  key a = key b -> Record_eq x a = Record_eq x b.
Proof.
  intros H. apply key_inv in H.
  destruct H as (H1 & H2 & H3 & H4 & H5 & H6 & _).
  unfold Record_eq. rewrite H1, H2, H3, H4, H5, H6. reflexivity.
Qed.

Lemma Record_eq_true_iff (a b : record) :
  Record_eq a b = true <->
  exchange_excepted (exchange a) = false /\
  record_type a = record_type b /\ buycur a = buycur b /\
  sellcur a = sellcur b /\ exchange a = exchange b /\
  fee_cur a = fee_cur b /\
  PyStr.split_first (date a) = PyStr.split_first (date b).
Proof.
  unfold Record_eq. destruct (exchange_excepted (exchange a)).
  - split; [discriminate | intros [H _]; discriminate].
  - rewrite !andb_true_iff, !String.eqb_eq. tauto.
Qed.

Lemma Record_eq_sym (a b : record) : Record_eq a b = Record_eq b a.
Proof.
  destruct (Record_eq a b) eqn:Eab, (Record_eq b a) eqn:Eba; try reflexivity.
  - apply Record_eq_true_iff in Eab.
    destruct Eab as (Hx & H1 & H2 & H3 & H4 & H5 & H6).
    assert (Record_eq b a = true) as Hba; [|congruence].
    apply Record_eq_true_iff. rewrite <- H4. auto 10.
  - apply Record_eq_true_iff in Eba.
    destruct Eba as (Hx & H1 & H2 & H3 & H4 & H5 & H6).
    assert (Record_eq a b = true) as Hab; [|congruence].
    apply Record_eq_true_iff. rewrite <- H4. auto 10.
Qed.

(** ** The reducer *)

Section ReducerFacts.
Local Open Scope list_scope.

Lemma emitted_map_Some (l : list record) : emitted (map Some l) = l.
Proof. induction l; simpl; congruence. Qed.

Lemma group_members_snoc (h x : record) (t : list record) :
  group_members h t ->
  is_lost_fee x = true \/ Record_eq x h = true ->
  group_members h (t ++ [x]).
Proof.
  intros Ht Hx. apply Forall_app. split; [exact Ht | constructor; auto].
Qed.

(** The loop from a state that holds an accumulator [acc] for the group
    begun by [h], whose later members seen so far are [t0]: the rows left
    extend this group by [t] and are followed by the groups [gs]. *)
Lemma run_loop_groups (rows : list row) :
  forall st st' acc h t0 hd,
    header st = Some hd -> previous st = Some acc ->
    constructed acc -> key acc = key h -> group_members h t0 ->
    run_loop rows st = Ok st' ->
    exists recs t gs reps last,
      records_of_rows rows = Ok recs /\
      previous st' = Some last /\ header st' = Some hd /\
      output st' ++ [Some last] = output st ++ map Some reps /\
      Forall2 represents reps ((h :: t0 ++ t) :: gs) /\
      concat ((h :: t0 ++ t) :: gs) = (h :: t0) ++ recs /\
      separated ((h :: t0 ++ t) :: gs) /\
      Forall constructed reps.
Proof.
  induction rows as [|r rest IH]; intros st st' acc h t0 hd Hh Hp Hc Hk Hm Hrun.
  - simpl in Hrun. injection Hrun as <-.
    exists [], [], [], [acc], acc. rewrite !app_nil_r. simpl.
    repeat split; auto.
    + constructor; [|constructor]. exists h, t0. auto.
    + rewrite app_nil_r. reflexivity.
  - simpl in Hrun. inv_bind Hrun. rename x into st1.
    unfold loop_body in Hx. rewrite Hh in Hx.
    inv_bind Hx. rename x into rec. rewrite Hp in Hx.
    assert (Hrec : constructed rec) by (eapply Record_of_row_constructed; eauto).
    simpl records_of_rows. rewrite Hx0. simpl bind.
    destruct (is_lost_fee rec) eqn:Elf.
    + (* the fee line is skipped *)
      injection Hx as <-.
      destruct (IH st st' acc h (t0 ++ [rec]) hd Hh Hp Hc Hk
                  (group_members_snoc _ _ _ Hm (or_introl Elf)) Hrun)
        as (recs & t & gs & reps & last & H1 & H2 & H3 & H4 & H5 & H6 & H7 & H8).
      rewrite <- app_assoc in H5, H6, H7. simpl in H5, H6, H7.
      destruct H7 as [H7 H7'].
      exists (rec :: recs), (rec :: t), gs, reps, last.
      rewrite H1. simpl bind. repeat split; auto.
      simpl. rewrite H6, <- app_assoc. reflexivity.
    + destruct (Record_eq rec acc) eqn:Eeq.
      * (* the record extends the group *)
        inv_bind Hx. rename x into sum. injection Hx as <-.
        assert (Hks : key sum = key h)
          by (rewrite <- Hk; eapply Record_add_key; eauto).
        assert (Hcs : constructed sum)
          by (eapply Record_add_constructed; eauto).
        assert (Hmem : Record_eq rec h = true)
          by (rewrite <- (Record_eq_key_r rec acc h Hk); exact Eeq).
        destruct (IH (mkState (output st) (Some sum) (Some hd)) st' sum h
                    (t0 ++ [rec]) hd eq_refl eq_refl Hcs Hks
                    (group_members_snoc _ _ _ Hm (or_intror Hmem)) Hrun)
          as (recs & t & gs & reps & last & H1 & H2 & H3 & H4 & H5 & H6 & H7 & H8).
        rewrite <- app_assoc in H5, H6, H7. simpl in H4, H5, H6, H7.
        destruct H7 as [H7 H7'].
        exists (rec :: recs), (rec :: t), gs, reps, last.
        rewrite H1. simpl bind. repeat split; auto.
        simpl. rewrite H6, <- app_assoc. reflexivity.
      * (* the group is closed and the record begins the next one *)
        injection Hx as <-.
        destruct (IH (mkState (output st ++ [Some acc]) (Some rec) (Some hd))
                    st' rec rec [] hd eq_refl eq_refl Hrec eq_refl
                    (Forall_nil _) Hrun)
          as (recs & t & gs & reps & last & H1 & H2 & H3 & H4 & H5 & H6 & H7 & H8).
        simpl in H4, H5, H6, H7.
        exists (rec :: recs), [], ((rec :: t) :: gs), (acc :: reps), last.
        rewrite H1. simpl bind. rewrite !app_nil_r.
        repeat split; auto.
        -- rewrite H4, <- app_assoc. reflexivity.
        -- constructor; [|exact H5]. exists h, t0. auto.
        -- simpl. rewrite H6. reflexivity.
        -- rewrite <- (Record_eq_key_r rec acc h Hk). exact Eeq.
        -- apply H7.
        -- apply H7.
Qed.

(** The output of the reducer against the records of the data rows: one
    representative per group, the groups being consecutive runs of the
    input in input order. *)
Lemma reduce_rows_groups (hd : row) (rows : list row) (st : loop_state) :
  reduce_rows (hd :: rows) = Ok st ->
  exists recs gs reps,
    records_of_rows rows = Ok recs /\
    header st = Some hd /\
    output st = match recs with [] => [None] | _ :: _ => map Some reps end /\
    emitted (output st) = reps /\
    concat gs = recs /\
    Forall2 represents reps gs /\
    separated gs /\
    Forall constructed reps.
Proof.
  unfold reduce_rows. intros H. inv_bind H. injection H as <-.
  simpl in Hx. destruct rows as [|r rest].
  - simpl in Hx. injection Hx as <-.
    exists [], [], []. simpl. repeat split; auto.
  - simpl in Hx. inv_bind Hx. rename x0 into st1.
    inv_bind Hx0. rename x0 into rec. injection Hx0 as <-.
    assert (Hrec : constructed rec) by (eapply Record_of_row_constructed; eauto).
    destruct (run_loop_groups rest (mkState [] (Some rec) (Some hd)) x rec rec
                [] hd eq_refl eq_refl Hrec eq_refl (Forall_nil _) Hx)
      as (recs & t & gs & reps & last & H1 & H2 & H3 & H4 & H5 & H6 & H7 & H8).
    simpl in H4, H5, H6, H7.
    exists (rec :: recs), ((rec :: t) :: gs), reps.
    simpl records_of_rows. rewrite Hx1, H1. simpl bind.
    unfold flush. simpl output. simpl header. rewrite H2, H4.
    rewrite emitted_map_Some. destruct H7 as [H7 H7'].
    repeat split; auto.
Qed.

End ReducerFacts.

(** ** Decimal addition within the precision *)

Section DecimalFacts.
Local Open Scope Z_scope.

Lemma ndigits_fuel_le (fuel : nat) :
  forall (n : N) (k : Z),
    Z.of_N n < 10 ^ k -> 1 <= k -> Dec.ndigits_fuel fuel n <= k.
Proof.
  induction fuel as [|f IH]; intros n k Hn Hk; cbn [Dec.ndigits_fuel].
  - exact Hk.
  - destruct (N.ltb_spec n 10) as [Hlt|Hge]; [exact Hk|].
    assert (H10 : 10 <= Z.of_N n) by lia.
    assert (Hk2 : 2 <= k).
    { destruct (Z.eq_dec k 1) as [->|]; [|lia]. simpl in Hn. lia. }
    assert (Hpow : 10 ^ k = 10 * 10 ^ (k - 1)).
    { rewrite <- Z.pow_succ_r by lia. f_equal. lia. }
    assert (Hdiv : Z.of_N (n / 10) < 10 ^ (k - 1)).
    { rewrite N2Z.inj_div. change (Z.of_N 10) with 10.
      apply Z.div_lt_upper_bound; lia. }
    specialize (IH (n / 10)%N (k - 1) Hdiv ltac:(lia)). lia.
Qed.

Lemma ndigits_le (n : N) (k : Z) :
  Z.of_N n < 10 ^ k -> 1 <= k -> Dec.ndigits n <= k.
Proof. apply ndigits_fuel_le. Qed.

(** A non-zero coefficient of at most [prec] digits with an exponent in
    range is left as it is by the rounding. *)
Lemma fix_finite_exact (s : bool) (c : N) (e : Z) :
  c <> 0%N -> Z.of_N c < 10 ^ Dec.prec ->
  Dec.Etiny <= e <= Dec.Etop ->
  Dec.fix_finite s c e = Ok (Dec.Finite s c e).
Proof.
  intros Hc Hlt He. unfold Dec.fix_finite.
  destruct (N.eqb_spec c 0) as [|_]; [contradiction|].
  pose proof (ndigits_le c Dec.prec Hlt ltac:(unfold Dec.prec; lia)) as Hd.
  destruct (Z.ltb_spec Dec.Etop (Dec.ndigits c + e - Dec.prec)) as [H|_];
    [lia|].
  destruct (Z.ltb_spec e (Z.max (Dec.ndigits c + e - Dec.prec) Dec.Etiny))
    as [H|_]; [lia|].
  reflexivity.
Qed.

Lemma signed_abs (v : Z) : Dec.signed (v <? 0) (Z.to_N (Z.abs v)) = v.
Proof.
  unfold Dec.signed. rewrite Z2N.id by lia.
  destruct (Z.ltb_spec v 0); lia.
Qed.

Lemma add_finite_exact s1 c1 e1 s2 c2 e2 :
  let v := Dec.exact_sum s1 c1 e1 s2 c2 e2 in
  v <> 0 -> Z.abs v < 10 ^ Dec.prec ->
  Dec.Etiny <= Z.min e1 e2 <= Dec.Etop ->
  Dec.add (Dec.Finite s1 c1 e1) (Dec.Finite s2 c2 e2) =
  Ok (Dec.Finite (v <? 0) (Z.to_N (Z.abs v)) (Z.min e1 e2)).
Proof.
  intros v Hv Hlt He. unfold Dec.add. fold v.
  destruct (Z.eqb_spec v 0) as [|_]; [contradiction|].
  apply fix_finite_exact; [lia | rewrite Z2N.id by lia; exact Hlt | exact He].
Qed.

Lemma exact_sum_of_exact s1 c1 e1 s2 c2 e2 :
  let v := Dec.exact_sum s1 c1 e1 s2 c2 e2 in
  exact_sum_of (Dec.Finite s1 c1 e1) (Dec.Finite s2 c2 e2)
               (Dec.Finite (v <? 0) (Z.to_N (Z.abs v)) (Z.min e1 e2)).
Proof.
  intros v. unfold exact_sum_of, scaled. rewrite Z.min_id, Z.sub_diag.
  rewrite signed_abs. unfold v, Dec.exact_sum. simpl (10 ^ 0). lia.
Qed.

Lemma ndigits_fuel_pos (fuel : nat) (n : N) : 1 <= Dec.ndigits_fuel fuel n.
Proof.
  revert n. induction fuel as [|f IH]; intros n; cbn [Dec.ndigits_fuel].
  - lia.
  - destruct (n <? 10)%N; [lia|]. specialize (IH (n / 10)%N). lia.
Qed.

Lemma ndigits_fuel_upper (fuel : nat) :
  forall n : N,
    (n < 2 ^ N.of_nat fuel)%N -> Z.of_N n < 10 ^ Dec.ndigits_fuel fuel n.
Proof.
  induction fuel as [|f IH]; intros n Hn; cbn [Dec.ndigits_fuel].
  - simpl in Hn. change (10 ^ 1) with 10. lia.
  - destruct (N.ltb_spec n 10) as [Hlt|Hge].
    + change (10 ^ 1) with 10. lia.
    + assert (Hdiv : (n / 10 < 2 ^ N.of_nat f)%N).
      { apply N.Div0.div_lt_upper_bound.
        rewrite Nat2N.inj_succ, N.pow_succ_r' in Hn. lia. }
      specialize (IH _ Hdiv).
      pose proof (ndigits_fuel_pos f (n / 10)%N) as Hp.
      rewrite Z.pow_add_r by lia. change (10 ^ 1) with 10.
      rewrite N2Z.inj_div in IH. change (Z.of_N 10) with 10 in IH.
      pose proof (Z.div_mod (Z.of_N n) 10 ltac:(lia)) as Hdm.
      pose proof (Z.mod_pos_bound (Z.of_N n) 10 ltac:(lia)) as Hmb.
      lia.
Qed.

Lemma ndigits_upper (n : N) : Z.of_N n < 10 ^ Dec.ndigits n.
Proof.
  apply ndigits_fuel_upper. rewrite N2Nat.id. apply N.size_gt.
Qed.

Lemma ndigits_pos (n : N) : 1 <= Dec.ndigits n.
Proof. apply ndigits_fuel_pos. Qed.


Lemma pow10_pos (k : Z) : 0 <= k -> 0 < 10 ^ k.
Proof. intros H. apply Z.pow_pos_nonneg; lia. Qed.

(** A coefficient [c] that a product [c' * 10 ^ j] bounds by [prec] digits
    has at most [prec + j] digits. *)
Lemma representable_exponent (c : N) (e : Z) :
  c <> 0%N -> representable (Z.of_N c) e ->
  exists (c' : N) (e' : Z),
    Z.of_N c' < 10 ^ Dec.prec /\ Dec.Etiny <= e' /\
    Dec.ndigits c + e - Dec.prec <= e' /\
    (e <= e' -> Z.of_N c = Z.of_N c' * 10 ^ (e' - e)).
Proof.
  intros Hc (c' & e' & Hc' & He' & Heq).
  rewrite Z.abs_eq in Heq by lia.
  exists c', e'. split; [exact Hc'|]. split; [exact He'|].
  assert (Hc1 : 1 <= Z.of_N c) by lia.
  destruct (Z.le_gt_cases e e') as [Hle|Hgt].
  - rewrite Z.min_l, Z.sub_diag, Z.mul_1_r in Heq by lia.
    split; [|intros _; exact Heq].
    assert (Hb : Z.of_N c < 10 ^ (Dec.prec + (e' - e))).
    { rewrite Heq, Z.pow_add_r by (unfold Dec.prec; lia).
      apply Z.mul_lt_mono_pos_r; [apply pow10_pos; lia | exact Hc']. }
    pose proof (ndigits_le c _ Hb ltac:(unfold Dec.prec; lia)). lia.
  - split; [|intros H; lia].
    rewrite Z.min_r, Z.sub_diag, Z.mul_1_r in Heq by lia.
    set (j := e - e') in *.
    assert (Hj : 0 < j) by (unfold j; lia).
    pose proof (pow10_pos j ltac:(lia)) as Hpj.
    assert (Hjp : j < Dec.prec).
    { apply (Z.pow_lt_mono_r_iff 10); [lia | unfold Dec.prec; lia|].
      rewrite <- Heq in Hc'. nia. }
    assert (Hb : Z.of_N c < 10 ^ (Dec.prec - j)).
    { apply (Z.mul_lt_mono_pos_r (10 ^ j)); [exact Hpj|].
      rewrite <- Z.pow_add_r by lia.
      replace (Dec.prec - j + j) with Dec.prec by lia.
      rewrite Heq. exact Hc'. }
    pose proof (ndigits_le c _ Hb ltac:(lia)). unfold j in *. lia.
Qed.

(** Rounding to the context keeps the value of a non-zero number that can
    be written with at most [prec] digits and an exponent from [Etiny]. *)
Lemma fix_finite_representable (s : bool) (c : N) (e : Z) (d : Dec.Decimal) :
  c <> 0%N -> representable (Z.of_N c) e ->
  Dec.fix_finite s c e = Ok d ->
  exists (c2 : N) (e2 : Z),
    d = Dec.Finite s c2 e2 /\ c2 <> 0%N /\ e <= e2 /\
    Z.of_N c2 * 10 ^ (e2 - e) = Z.of_N c.
Proof.
  intros Hc Hrep Hfix.
  destruct (representable_exponent c e Hc Hrep)
    as (c' & e' & Hc' & He' & Hn & Heq).
  unfold Dec.fix_finite in Hfix.
  destruct (N.eqb_spec c 0) as [|_]; [contradiction|].
  pose proof (ndigits_upper c) as Hup.
  pose proof (ndigits_pos c) as Hpos.
  set (n := Dec.ndigits c) in *.
  destruct (Z.ltb_spec Dec.Etop (n + e - Dec.prec)) as [|_];
    [discriminate Hfix|].
  set (exp_min := Z.max (n + e - Dec.prec) Dec.Etiny) in *.
  destruct (Z.ltb_spec e exp_min) as [Hlt|Hge].
  2: { injection Hfix as <-. exists c, e.
       split; [reflexivity|]. split; [exact Hc|]. split; [lia|].
       rewrite Z.sub_diag. change (10 ^ 0) with 1. lia. }
  assert (Hmin : exp_min <= e') by (unfold exp_min; lia).
  specialize (Heq ltac:(lia)).
  set (k := exp_min - e) in *.
  assert (Hk : 0 < k) by (unfold k; lia).
  set (q0 := (c' * 10 ^ Z.to_N (e' - exp_min))%N).
  set (p := (10 ^ Z.to_N k)%N).
  assert (Hp : Z.of_N p = 10 ^ k).
  { unfold p. rewrite N2Z.inj_pow, Z2N.id by lia. reflexivity. }
  assert (Hq : Z.of_N q0 = Z.of_N c' * 10 ^ (e' - exp_min)).
  { unfold q0. rewrite N2Z.inj_mul, N2Z.inj_pow, Z2N.id by lia. reflexivity. }
  assert (HcZ : Z.of_N c = Z.of_N q0 * 10 ^ k).
  { rewrite Heq, Hq, <- Z.mul_assoc, <- Z.pow_add_r by (unfold k; lia).
    f_equal. f_equal. unfold k. lia. }
  assert (HcN : c = (q0 * p)%N).
  { apply N2Z.inj. rewrite N2Z.inj_mul, Hp. exact HcZ. }
  pose proof (pow10_pos k ltac:(lia)) as Hpk.
  assert (Hp0 : p <> 0%N) by lia.
  assert (Hr : Dec.round_half_even c k = q0).
  { unfold Dec.round_half_even. fold p. cbv zeta.
    rewrite HcN, N.div_mul, N.Div0.mod_mul by exact Hp0.
    change (2 * 0)%N with 0%N.
    destruct (N.ltb_spec p 0) as [|_]; [lia|].
    destruct (N.eqb_spec 0 p) as [|_]; [lia|]. reflexivity. }
  assert (Hq0 : Z.of_N q0 < 10 ^ Dec.prec).
  { apply (Z.mul_lt_mono_pos_r (10 ^ k)); [exact Hpk|].
    rewrite <- HcZ, <- Z.pow_add_r by (unfold Dec.prec; lia).
    eapply Z.lt_le_trans; [exact Hup|].
    apply Z.pow_le_mono_r; [lia|]. unfold k, exp_min. lia. }
  pose proof (ndigits_le q0 _ Hq0 ltac:(unfold Dec.prec; lia)) as Hdq.
  cbv zeta in Hfix. rewrite Hr in Hfix.
  destruct (Z.ltb_spec Dec.prec (Dec.ndigits q0)) as [|_]; [lia|].
  destruct (Z.ltb_spec Dec.Etop exp_min) as [|_]; [discriminate Hfix|].
  injection Hfix as <-. exists q0, exp_min.
  split; [reflexivity|]. split; [|split; [lia|]].
  - intros E. rewrite E in HcN. simpl in HcN. contradiction.
  - fold k. symmetry. exact HcZ.
Qed.

(** A non-zero coefficient of at most [prec] digits with an exponent from
    [Etiny] is returned as it is, when the rounding returns. *)
Lemma fix_finite_fits (s : bool) (c : N) (e : Z) (d : Dec.Decimal) :
  c <> 0%N -> Z.of_N c < 10 ^ Dec.prec -> Dec.Etiny <= e ->
  Dec.fix_finite s c e = Ok d -> d = Dec.Finite s c e.
Proof.
  intros Hc Hlt He Hfix. unfold Dec.fix_finite in Hfix.
  destruct (N.eqb_spec c 0) as [|_]; [contradiction|].
  pose proof (ndigits_le c Dec.prec Hlt ltac:(unfold Dec.prec; lia)) as Hd.
  destruct (Z.ltb_spec Dec.Etop (Dec.ndigits c + e - Dec.prec)) as [|_];
    [discriminate Hfix|].
  destruct (Z.ltb_spec e (Z.max (Dec.ndigits c + e - Dec.prec) Dec.Etiny))
    as [H|_]; [lia|].
  injection Hfix as <-. reflexivity.
Qed.

(** One merged amount: the sum of [__add__] passed through the constructor. *)
Lemma merged_amount_in_precision (x y z : option Dec.Decimal) (a : amount_arg) :
  amount_sum x y = Ok a -> amount_of_arg a = Ok z ->
  merged_in_precision x y z.
Proof.
  intros Hs Ha. split.
  - intros Hnone.
    assert (a = ANone) as ->.
    { destruct Hnone as [-> | ->]; [|destruct x]; simpl in Hs; congruence. }
    cbv in Ha. congruence.
  - intros s1 c1 e1 s2 c2 e2 -> -> v Hv Hrep.
    unfold amount_sum in Hs. inv_bind Hs. rename x into d.
    injection Hs as <-.
    unfold Dec.add in Hx. fold v in Hx.
    destruct (Z.eqb_spec v 0) as [|_]; [contradiction|].
    assert (Hc : Z.to_N (Z.abs v) <> 0%N) by lia.
    assert (Hrep' : representable (Z.of_N (Z.to_N (Z.abs v))) (Z.min e1 e2)).
    { destruct Hrep as (c' & e' & H1 & H2 & H3). exists c', e'.
      rewrite Z2N.id, Z.abs_idemp by lia. auto. }
    destruct (fix_finite_representable _ _ _ _ Hc Hrep' Hx)
      as (c3 & e3 & -> & Hc3 & He3 & Hval).
    assert (Hz : z = Some (Dec.Finite (v <? 0) c3 e3)).
    { unfold amount_of_arg in Ha. cbn [arg_truthy Dec.truthy] in Ha.
      destruct (N.eqb_spec c3 0) as [|_]; [contradiction|].
      cbn in Ha. congruence. }
    split.
    + cbn [merged_exact]. exists (Dec.Finite (v <? 0) c3 e3).
      split; [exact Hz|].
      unfold exact_sum_of, scaled. rewrite (Z.min_l _ e3) by lia.
      change (Dec.signed s1 c1 * 10 ^ (e1 - Z.min e1 e2)
              + Dec.signed s2 c2 * 10 ^ (e2 - Z.min e1 e2))
        with (Dec.exact_sum s1 c1 e1 s2 c2 e2).
      fold v. rewrite Z2N.id in Hval by lia.
      unfold Dec.signed. destruct (Z.ltb_spec v 0); lia.
    + intros Hlt He. rewrite Hz. f_equal.
      apply (fix_finite_fits _ _ _ _ Hc); [|exact He|exact Hx].
      rewrite Z2N.id by lia. exact Hlt.
Qed.

Lemma round_half_even_le (c : N) (k : Z) :
  (Dec.round_half_even c k <= c / 10 ^ Z.to_N k + 1)%N.
Proof.
  unfold Dec.round_half_even. cbv zeta.
  destruct (_ || _); lia.
Qed.

(** What the rounding returns has at most [prec] digits and an exponent
    not below [Etiny]. *)
Lemma fix_finite_bounds (s s' : bool) (c c2 : N) (e e2 : Z) :
  c <> 0%N ->
  Dec.fix_finite s c e = Ok (Dec.Finite s' c2 e2) ->
  Z.of_N c2 < 10 ^ Dec.prec /\ Dec.Etiny <= e2.
Proof.
  intros Hc Hfix. unfold Dec.fix_finite in Hfix.
  destruct (N.eqb_spec c 0) as [|_]; [contradiction|].
  pose proof (ndigits_upper c) as Hup.
  pose proof (ndigits_pos c) as Hpos.
  set (n := Dec.ndigits c) in *.
  destruct (Z.ltb_spec Dec.Etop (n + e - Dec.prec)) as [|_];
    [discriminate Hfix|].
  set (exp_min := Z.max (n + e - Dec.prec) Dec.Etiny) in *.
  destruct (Z.ltb_spec e exp_min) as [Hlt|Hge].
  - set (k := exp_min - e) in *.
    assert (Hk : 0 < k) by (unfold k; lia).
    pose proof (round_half_even_le c k) as Hle.
    set (c1 := Dec.round_half_even c k) in *.
    set (p := (10 ^ Z.to_N k)%N) in *.
    assert (Hp : Z.of_N p = 10 ^ k).
    { unfold p. rewrite N2Z.inj_pow, Z2N.id by lia. reflexivity. }
    pose proof (pow10_pos k ltac:(lia)) as Hpk.
    assert (Hq : Z.of_N (c / p) < 10 ^ Dec.prec).
    { rewrite N2Z.inj_div, Hp. apply Z.div_lt_upper_bound; [exact Hpk|].
      rewrite <- Z.pow_add_r by (unfold Dec.prec; lia).
      eapply Z.lt_le_trans; [exact Hup|].
      apply Z.pow_le_mono_r; [lia|]. unfold k, exp_min. lia. }
    cbv zeta in Hfix.
    destruct (Z.ltb_spec Dec.prec (Dec.ndigits c1)) as [Hbig|Hsmall].
    + destruct (Z.ltb_spec Dec.Etop (exp_min + 1)) as [|_];
        [discriminate Hfix|].
      injection Hfix as _ <- <-. split; [|unfold exp_min; lia].
      rewrite N2Z.inj_div. change (Z.of_N 10) with 10.
      apply Z.div_lt_upper_bound; [lia|].
      assert (Z.of_N c1 <= 10 ^ Dec.prec) by lia.
      assert (0 < 10 ^ Dec.prec) by (apply pow10_pos; unfold Dec.prec; lia).
      lia.
    + destruct (Z.ltb_spec Dec.Etop exp_min) as [|_]; [discriminate Hfix|].
      injection Hfix as _ <- <-. split; [|unfold exp_min; lia].
      eapply Z.lt_le_trans; [apply ndigits_upper|].
      apply Z.pow_le_mono_r; lia.
  - injection Hfix as _ <- <-. split; [|unfold exp_min in Hge; lia].
    eapply Z.lt_le_trans; [exact Hup|].
    apply Z.pow_le_mono_r; [lia|]. unfold exp_min in Hge. lia.
Qed.

(** The condition of the merged amount is the weakest one: for finite
    operands with a non-zero exact sum, the merged amount is the exact sum
    only when that sum can be written in the context. *)
Lemma merged_exact_representable (x y z : option Dec.Decimal)
    (a : amount_arg) s1 c1 e1 s2 c2 e2 :
  amount_sum x y = Ok a -> amount_of_arg a = Ok z ->
  x = Some (Dec.Finite s1 c1 e1) -> y = Some (Dec.Finite s2 c2 e2) ->
  Dec.exact_sum s1 c1 e1 s2 c2 e2 <> 0 ->
  merged_exact x y z ->
  representable (Dec.exact_sum s1 c1 e1 s2 c2 e2) (Z.min e1 e2).
Proof.
  intros Hs Ha -> -> Hv (dz & Hz & Hsum).
  set (v := Dec.exact_sum s1 c1 e1 s2 c2 e2) in *.
  unfold amount_sum in Hs. inv_bind Hs. rename x into d.
  injection Hs as <-.
  unfold amount_of_arg in Ha.
  destruct (arg_truthy (ADec d)) eqn:Ht; cbn in Ha; [|congruence].
  assert (dz = d) as -> by congruence.
  destruct d as [s3 c3 e3| |]; try contradiction.
  unfold Dec.add in Hx. fold v in Hx.
  assert (Hc : Z.to_N (Z.abs v) <> 0%N) by lia.
  destruct (fix_finite_bounds _ _ _ _ _ _ Hc Hx) as [Hc3 He3].
  exists c3, e3. split; [exact Hc3|]. split; [exact He3|].
  unfold exact_sum_of, scaled in Hsum.
  set (e := Z.min e1 e2) in *. set (e0 := Z.min e e3) in *.
  assert (H1 : 10 ^ (e1 - e0) = 10 ^ (e1 - e) * 10 ^ (e - e0)).
  { rewrite <- Z.pow_add_r by (unfold e0, e; lia). f_equal. lia. }
  assert (H2 : 10 ^ (e2 - e0) = 10 ^ (e2 - e) * 10 ^ (e - e0)).
  { rewrite <- Z.pow_add_r by (unfold e0, e; lia). f_equal. lia. }
  assert (Hv' : Dec.signed s3 c3 * 10 ^ (e3 - e0) = v * 10 ^ (e - e0)).
  { rewrite Hsum, H1, H2. unfold v, Dec.exact_sum. fold e. ring. }
  pose proof (pow10_pos (e3 - e0) ltac:(unfold e0; lia)) as P3.
  pose proof (pow10_pos (e - e0) ltac:(unfold e0; lia)) as P0.
  apply (f_equal Z.abs) in Hv'. rewrite !Z.abs_mul in Hv'.
  rewrite (Z.abs_eq (10 ^ (e3 - e0))), (Z.abs_eq (10 ^ (e - e0))) in Hv'
    by lia.
  rewrite <- Hv'. f_equal. unfold Dec.signed. destruct s3; lia.
Qed.

End DecimalFacts.

(** * The claims *)

Section Claims.
Local Open Scope list_scope.

(** ** C1: the Binance fee line *)

(** Once an accumulator exists, a Binance "Lost" fee line leaves the state
    of the loop as it was. *)
Lemma lost_fee_skipped (st : loop_state) (rw hd : row) (prev rec : record) :
  header st = Some hd -> previous st = Some prev ->
  Record_of_row rw = Ok rec -> is_lost_fee rec = true ->
  loop_body st rw = Ok st.
Proof.
  intros Hh Hp Hr Hl. unfold loop_body. rewrite Hh, Hr. simpl.
  rewrite Hp, Hl. reflexivity.
Qed.

(** C1, at the failing input: a Binance "Lost" record whose txId contains
    "_fee" and which is the first data record is not discarded.  It becomes
    the accumulator and is emitted, and a later "Lost" record of the same
    day is merged into it. *)
Theorem C1_lost_fee_first_record_is_kept (hd : row) :
  exists r m,
    Record_of_row row_lost_fee = Ok r /\ is_lost_fee r = true /\
    (st <- reduce_rows [hd; row_lost_fee] ;; Ok (output st)) = Ok [Some r] /\
    process_csv [hd; row_lost_fee] =
      Ok ((PyStr.join "," hd ++ newline
           ++ "Lost,,,0.00075,BNB,,,Binance,,,30.08.2021 13:31,123_fee"
           ++ newline)%string, 1%nat) /\
    (st <- reduce_rows [hd; row_lost_fee; row_lost] ;; Ok (output st))
      = Ok [Some m] /\
    tx_id m = "123_fee" /\
    sellamt m = Some (Dec.Finite false 50075 (-5)).
Proof.
  eexists. eexists.
  split; [reflexivity|].
  split; [reflexivity|].
  split; [reflexivity|].
  split; [reflexivity|].
  split; [reflexivity|].
  split; reflexivity.
Qed.

(** ** C3: a header and no data row *)

(** C3, at the failing input: with a header and no data row the final
    append stores [None] in the output, which is written as the line "None"
    and counted as one exported record. *)
Theorem C3_header_only_emits_None (hd : row) :
  (st <- reduce_rows [hd] ;; Ok (output st)) = Ok [None] /\
  process_csv [hd] =
    Ok ((PyStr.join "," hd ++ newline ++ "None" ++ newline)%string, 1%nat).
Proof. split; reflexivity. Qed.

(** ** C7: the end-to-end example *)

(** C7: the two Poloniex trades of 30.08.2016 are merged into one record
    with buyAmount 4, sellAmount 6, fee 0.3 and the date of the first. *)
Theorem C7_two_trades_same_day (hd : row) :
  (st <- reduce_rows [hd; row_trade_1331; row_trade_1400] ;; Ok (output st))
  = Ok [Some {| record_type := "Trade";
                buyamt := Some (Dec.Finite false 4 0);
                buycur := "BTC";
                sellamt := Some (Dec.Finite false 6 0);
                sellcur := "XMR";
                fee := Some (Dec.Finite false 3 (-1));
                fee_cur := "BTC";
                exchange := "Poloniex";
                group := EmptyString;
                comment := EmptyString;
                date := "30.08.2016 13:31";
                tx_id := "tx1" |}] /\
  process_csv [hd; row_trade_1331; row_trade_1400] =
    Ok ((PyStr.join "," hd ++ newline
         ++ "Trade,4,BTC,6,XMR,0.3,BTC,Poloniex,,,30.08.2016 13:31,tx1"
         ++ newline)%string, 1%nat).
Proof. split; reflexivity. Qed.

(** ** C9 and C4: the order of the operands of the test *)

(** C9: the equivalence predicate is symmetric. *)
Theorem C9_sameGroup_symmetric (a b : record) :
  Record_eq a b = Record_eq b a.
Proof. apply Record_eq_sym. Qed.

Lemma loop_body_acc_left_eq (st : loop_state) (r : row) :
  loop_body_acc_left st r = loop_body st r.
Proof.
  unfold loop_body_acc_left, loop_body.
  destruct (header st); [|reflexivity].
  destruct (Record_of_row r) as [rec|e]; simpl; [|reflexivity].
  destruct (previous st) as [prev|]; [|reflexivity].
  rewrite (Record_eq_sym prev rec). reflexivity.
Qed.

Lemma run_loop_acc_left_eq (rows : list row) :
  forall st, run_loop_acc_left rows st = run_loop rows st.
Proof.
  induction rows as [|r rest IH]; intros st; simpl; [reflexivity|].
  rewrite loop_body_acc_left_eq.
  destruct (loop_body st r); simpl; [apply IH | reflexivity].
Qed.

(** C4: on every input the reducer, which tests [record == previous], gives
    the result of the reducer that tests sameGroup(accumulator, r): the same
    output sequence, the same text written and the same count, or the same
    exception. *)
Theorem C4_reducer_equals_accumulator_left (rows : list row) :
  reduce_rows rows = reduce_rows_acc_left rows /\
  process_csv rows = process_csv_acc_left rows.
Proof.
  assert (H : reduce_rows_acc_left rows = reduce_rows rows).
  { unfold reduce_rows_acc_left, reduce_rows.
    rewrite run_loop_acc_left_eq. reflexivity. }
  unfold process_csv, process_csv_acc_left. rewrite H. auto.
Qed.

(** ** C5: the equivalence predicate *)

Lemma wallet_pair_not_merged (hd rw : row) (a : record) :
  Record_of_row rw = Ok a -> exchange a = "My Wallet" ->
  (st <- reduce_rows [hd; rw; rw] ;; Ok (output st)) = Ok [Some a; Some a].
Proof.
  intros Hr He.
  assert (Hl : is_lost_fee a = false).
  { unfold is_lost_fee. rewrite He. simpl.
    rewrite andb_false_r. reflexivity. }
  assert (Hq : Record_eq a a = false).
  { unfold Record_eq. rewrite He. reflexivity. }
  unfold reduce_rows. simpl. unfold loop_body at 2. simpl.
  rewrite Hr. simpl. unfold loop_body. simpl.
  rewrite Hr. simpl. rewrite Hl, Hq. reflexivity.
Qed.

(** C5: sameGroup(a, b) is false whenever the exchange of [a] contains
    "Wallet" or "Transaction" in any case of letters; otherwise it is true
    exactly when recordType, buyCurrency, sellCurrency, exchange and
    feeCurrency are equal and the two dates have the same date-part.  Two
    equal rows whose exchange is "My Wallet" give two output records. *)
Theorem C5_sameGroup_characterisation (a b : record) :
  (ci_substring "Wallet" (exchange a) \/
   ci_substring "Transaction" (exchange a) ->
   Record_eq a b = false) /\
  (~ (ci_substring "Wallet" (exchange a) \/
      ci_substring "Transaction" (exchange a)) ->
   (Record_eq a b = true <->
    record_type a = record_type b /\ buycur a = buycur b /\
    sellcur a = sellcur b /\ exchange a = exchange b /\
    fee_cur a = fee_cur b /\
    exists p, date_part (date a) p /\ date_part (date b) p)) /\
  (forall hd rw,
     Record_of_row rw = Ok a -> exchange a = "My Wallet" ->
     (st <- reduce_rows [hd; rw; rw] ;; Ok (output st))
     = Ok [Some a; Some a]).
Proof.
  split; [|split].
  - intros H. apply exchange_excepted_iff in H.
    unfold Record_eq. rewrite H. reflexivity.
  - intros H. rewrite <- exchange_excepted_iff in H.
    apply not_true_is_false in H.
    rewrite Record_eq_true_iff. split.
    + intros (_ & H1 & H2 & H3 & H4 & H5 & H6). repeat split; auto.
      exists (PyStr.split_first (date a)). split.
      * apply date_part_split_first.
      * rewrite H6. apply date_part_split_first.
    + intros (H1 & H2 & H3 & H4 & H5 & p & Ha & Hb). repeat split; auto.
      apply date_part_unique in Ha, Hb. congruence.
  - intros hd rw. apply wallet_pair_not_merged.
Qed.

Lemma C5_witness :
  (exists a b,
     Record_of_row row_wallet = Ok a /\ Record_of_row row_wallet = Ok b /\
     Record_eq a b = false /\
     (st <- reduce_rows [sample_header; row_wallet; row_wallet] ;;
      Ok (output st)) = Ok [Some a; Some a]) /\
  (exists a b,
     Record_of_row row_trade_1331 = Ok a /\
     Record_of_row row_trade_1400 = Ok b /\
     Record_eq a b = true).
Proof.
  split.
  - eexists. eexists.
    split; [reflexivity|]. split; [reflexivity|].
    match goal with
    | |- Record_eq ?a ?b = _ /\ _ =>
        destruct (C5_sameGroup_characterisation a b) as (H1 & _ & H3)
    end.
    split.
    + apply H1. left. exists "My ", "Wallet", EmptyString. split; reflexivity.
    + apply H3; reflexivity.
  - eexists. eexists.
    split; [reflexivity|]. split; [reflexivity|].
    match goal with
    | |- Record_eq ?a ?b = _ =>
        destruct (C5_sameGroup_characterisation a b) as (_ & H2 & _)
    end.
    apply H2.
    + intros H. apply exchange_excepted_iff in H. vm_compute in H.
      discriminate H.
    + simpl. repeat split; try reflexivity.
      exists "30.08.2016". split.
      * apply (date_part_split_first "30.08.2016 13:31").
      * apply (date_part_split_first "30.08.2016 14:00").
Defined.

(** ** C6: what the merge keeps of the accumulator *)

(** C6: the merge of an accumulator [a] (a record built by the constructor)
    with [b] has the recordType, currencies, exchange, feeCurrency, date and
    txId of [a]; its group (its comment) is that of [a] when non-empty and
    that of [b] otherwise.  So the output of the reducer has one record per
    group of consecutive input records, each with the full date of the first
    record of its group. *)
Theorem C6_merge_keeps_accumulator_fields :
  (forall a b m : record,
     constructed a -> Record_add a b = Ok m ->
     record_type m = record_type a /\ buycur m = buycur a /\
     sellcur m = sellcur a /\ exchange m = exchange a /\
     fee_cur m = fee_cur a /\ date m = date a /\ tx_id m = tx_id a /\
     (group a <> EmptyString -> group m = group a) /\
     (group a = EmptyString -> group m = group b) /\
     (comment a <> EmptyString -> comment m = comment a) /\
     (comment a = EmptyString -> comment m = comment b)) /\
  (forall (hd : row) (rows : list row) (st : loop_state),
     reduce_rows (hd :: rows) = Ok st ->
     exists recs gs,
       records_of_rows rows = Ok recs /\
       concat gs = recs /\
       Forall2 (fun rep g => exists h t, g = h :: t /\ date rep = date h)
               (emitted (output st)) gs).
Proof.
  split.
  - intros a b m Ha H.
    pose proof (Record_add_key a b m Ha H) as Hk. apply key_inv in Hk.
    destruct Hk as (K1 & K2 & K3 & K4 & K5 & K6 & K7).
    apply Record_add_fields in H.
    destruct H as (_ & _ & _ & _ & _ & _ & _ & Hg & Hc).
    repeat split; auto.
    + intros Hne. rewrite Hg. destruct (group a); [congruence | reflexivity].
    + intros He. rewrite Hg, He. reflexivity.
    + intros Hne. rewrite Hc. destruct (comment a); [congruence | reflexivity].
    + intros He. rewrite Hc, He. reflexivity.
  - intros hd rows st H.
    destruct (reduce_rows_groups hd rows st H)
      as (recs & gs & reps & H1 & _ & _ & H4 & H5 & H6 & _).
    exists recs, gs. rewrite H4. repeat split; auto.
    eapply Forall2_impl; [|exact H6].
    intros rep g (h & t & -> & Hk & _). exists h, t. split; [reflexivity|].
    apply key_inv in Hk. tauto.
Qed.

Lemma C6_witness :
  exists a b m st,
    Record_of_row row_trade_1331 = Ok a /\
    Record_of_row row_trade_next_day = Ok b /\
    Record_add a b = Ok m /\
    date m = "30.08.2016 13:31" /\ tx_id m = "tx1" /\
    group m = "g" /\ comment m = "c" /\
    reduce_rows [sample_header; row_trade_1331; row_trade_1400;
                 row_trade_next_day] = Ok st /\
    exists recs gs,
      records_of_rows [row_trade_1331; row_trade_1400; row_trade_next_day]
        = Ok recs /\
      concat gs = recs /\
      Forall2 (fun rep g => exists h t, g = h :: t /\ date rep = date h)
              (emitted (output st)) gs.
Proof.
  destruct C6_merge_keeps_accumulator_fields as [Hadd Hred].
  with_ok (Record_of_row row_trade_1331) ltac:(fun a =>
  with_ok (Record_of_row row_trade_next_day) ltac:(fun b =>
  with_ok (Record_add a b) ltac:(fun m =>
  with_ok (reduce_rows [sample_header; row_trade_1331; row_trade_1400;
                        row_trade_next_day]) ltac:(fun st =>
    exists a, b, m, st;
    pose proof (Hadd a b m) as Hm;
    pose proof (Hred sample_header
                  [row_trade_1331; row_trade_1400; row_trade_next_day] st)
      as Hs)))).
  split; [reflexivity|]. split; [reflexivity|]. split; [reflexivity|].
  destruct Hm as (_ & _ & _ & _ & _ & Hd & Ht & _ & Hg & _ & Hc);
    [apply (Record_of_row_constructed row_trade_1331); reflexivity
    | reflexivity |].
  split; [rewrite Hd; reflexivity|].
  split; [rewrite Ht; reflexivity|].
  split; [rewrite Hg; reflexivity|].
  split; [rewrite Hc; reflexivity|].
  split; [reflexivity|].
  apply Hs. reflexivity.
Defined.

(** ** C8: the order of the output *)

(** C8: the records of the data rows split, in input order, into
    consecutive groups such that the output holds exactly one record per
    group, in the order of the groups, each with the key fields of the
    first member of its group.  The later members of a group are dropped
    fee lines or records in the group of its first member, and the first
    member of the next group is neither. *)
Theorem C8_output_in_input_order (hd : row) (rows : list row)
    (st : loop_state) :
  reduce_rows (hd :: rows) = Ok st ->
  exists recs gs,
    records_of_rows rows = Ok recs /\
    concat gs = recs /\
    Forall2 represents (emitted (output st)) gs /\
    separated gs.
Proof.
  intros H.
  destruct (reduce_rows_groups hd rows st H)
    as (recs & gs & reps & H1 & _ & _ & H4 & H5 & H6 & H7 & _).
  exists recs, gs. rewrite H4. auto.
Qed.

Lemma C8_witness :
  exists st,
    reduce_rows [sample_header; row_trade_1331; row_lost_fee;
                 row_trade_1400; row_trade_next_day; row_wallet; row_wallet]
      = Ok st /\
    exists recs gs,
      records_of_rows [row_trade_1331; row_lost_fee; row_trade_1400;
                       row_trade_next_day; row_wallet; row_wallet]
        = Ok recs /\
      concat gs = recs /\
      Forall2 represents (emitted (output st)) gs /\
      separated gs.
Proof.
  with_ok (reduce_rows [sample_header; row_trade_1331; row_lost_fee;
                        row_trade_1400; row_trade_next_day; row_wallet;
                        row_wallet]) ltac:(fun st => exists st).
  split; [reflexivity|].
  apply (C8_output_in_input_order sample_header). reflexivity.
Defined.

(** ** C10: the date is stripped *)

Lemma lstrip_decomp (s : string) :
  exists l, s = (l ++ PyStr.lstrip s)%string /\ all_space l = true.
Proof.
  induction s as [|c s (l & IH & Hl)]; simpl.
  - exists EmptyString. auto.
  - destruct (PyStr.is_space c) eqn:E.
    + exists (String c l). simpl. rewrite E, Hl. split; [congruence | reflexivity].
    + exists EmptyString. auto.
Qed.

Lemma rstrip_decomp (s : string) :
  exists r, s = (PyStr.rstrip s ++ r)%string /\ all_space r = true.
Proof.
  induction s as [|c s (r & IH & Hr)].
  - exists EmptyString. auto.
  - change (PyStr.rstrip (String c s))
      with (if PyStr.is_space c && PyStr.is_empty (PyStr.rstrip s)
            then EmptyString else String c (PyStr.rstrip s)).
    destruct (PyStr.is_space c && PyStr.is_empty (PyStr.rstrip s)) eqn:E.
    + apply andb_true_iff in E. destruct E as [Ec Ee].
      exists (String c s). split; [reflexivity|].
      simpl. rewrite Ec. simpl.
      destruct (PyStr.rstrip s); [|discriminate]. simpl in IH. congruence.
    + exists r. simpl. split; [congruence | exact Hr].
Qed.

Lemma strip_decomp (s : string) :
  exists l r,
    s = (l ++ PyStr.strip s ++ r)%string /\
    all_space l = true /\ all_space r = true.
Proof.
  destruct (lstrip_decomp s) as (l & Hl & Hls).
  destruct (rstrip_decomp (PyStr.lstrip s)) as (r & Hr & Hrs).
  exists l, r. unfold PyStr.strip. rewrite <- Hr. auto.
Qed.

Lemma Record_str_date (r : record) :
  exists pre, Record_str r = (pre ++ "," ++ date r ++ "," ++ tx_id r)%string.
Proof.
  unfold Record_str, Record_fields.
  exists (record_type r ++ "," ++ amount_str (buyamt r) ++ "," ++ buycur r
          ++ "," ++ amount_str (sellamt r) ++ "," ++ sellcur r ++ ","
          ++ amount_str (fee r) ++ "," ++ fee_cur r ++ "," ++ exchange r
          ++ "," ++ group r ++ "," ++ comment r)%string.
  cbn [PyStr.join]. rewrite !append_assoc. reflexivity.
Qed.

(** C10: the constructor stores the date cell without the whitespace at its
    two ends and every other text cell as it is; the date of a constructed
    or merged record has no whitespace at either end, and so has the date
    written for every record of the output. *)
Theorem C10_date_is_stripped :
  (forall t b c s sc f fc e g cm d tx r,
     Record_init t b c s sc f fc e g cm d tx = Ok r ->
     (exists l w,
        d = (l ++ date r ++ w)%string /\
        all_space l = true /\ all_space w = true) /\
     trimmed (date r) /\
     record_type r = t /\ buycur r = c /\ sellcur r = sc /\
     fee_cur r = fc /\ exchange r = e /\ group r = g /\
     comment r = cm /\ tx_id r = tx) /\
  (forall a b m : record, Record_add a b = Ok m -> trimmed (date m)) /\
  (forall (hd : row) (rows : list row) (st : loop_state),
     reduce_rows (hd :: rows) = Ok st ->
     Forall (fun r =>
               trimmed (date r) /\
               exists pre,
                 Record_str r
                 = (pre ++ "," ++ date r ++ "," ++ tx_id r)%string)
            (emitted (output st))).
Proof.
  split; [|split].
  - intros t b c s sc f fc e g cm d tx r H.
    apply Record_init_inv in H. destruct H as (b' & s' & f' & _ & _ & _ & ->).
    simpl. split; [apply strip_decomp|].
    split; [apply strip_trimmed|]. repeat split; reflexivity.
  - intros a b m H. apply constructed_trimmed.
    eapply Record_add_constructed; eauto.
  - intros hd rows st H.
    destruct (reduce_rows_groups hd rows st H)
      as (recs & gs & reps & _ & _ & _ & H4 & _ & _ & _ & H8).
    rewrite H4. eapply Forall_impl; [|exact H8].
    intros r Hr. split; [apply constructed_trimmed, Hr | apply Record_str_date].
Qed.

Lemma C10_witness :
  exists r st,
    Record_of_row row_trade_next_day = Ok r /\
    date r = "31.08.2016 09:15" /\ trimmed (date r) /\
    group r = "g" /\
    reduce_rows [sample_header; row_trade_next_day; row_trade_next_day]
      = Ok st /\
    Forall (fun r =>
              trimmed (date r) /\
              exists pre,
                Record_str r
                = (pre ++ "," ++ date r ++ "," ++ tx_id r)%string)
           (emitted (output st)).
Proof.
  destruct C10_date_is_stripped as (Hinit & _ & Hred).
  with_ok (Record_of_row row_trade_next_day) ltac:(fun r =>
  with_ok (reduce_rows [sample_header; row_trade_next_day;
                        row_trade_next_day]) ltac:(fun st =>
    exists r, st;
    pose proof (Hinit "Trade" (AStr "5") "BTC" (AStr "6") "XMR" (AStr "0.3")
                  "BTC" "Poloniex" "g" "c" " 31.08.2016 09:15 " "tx2" r)
      as Hr;
    pose proof (Hred sample_header [row_trade_next_day; row_trade_next_day] st)
      as Hs)).
  destruct Hr as (_ & Ht & _ & _ & _ & _ & _ & Hg & _); [reflexivity|].
  split; [reflexivity|]. split; [reflexivity|]. split; [exact Ht|].
  split; [exact Hg|]. split; [reflexivity|].
  apply Hs. reflexivity.
Defined.

(** ** C2: the merged amounts *)




End Claims.

(** * Further properties of the record model and of the reducer *)

Section Further.
Local Open Scope list_scope.

(** ** The equivalence predicate as a relation *)

Lemma Record_eq_refl_iff (a : record) :
  Record_eq a a = negb (exchange_excepted (exchange a)).
Proof.
  unfold Record_eq. destruct (exchange_excepted (exchange a)); [reflexivity|].
  rewrite !String.eqb_refl. reflexivity.
Qed.

(** X1: [__eq__] is transitive, and a record equals itself exactly when
    its exchange is not one of the excepted ones: with the symmetry, a
    partial equivalence relation. *)
Theorem X1_Record_eq_partial_equivalence :
  (forall a b c : record,
     Record_eq a b = true -> Record_eq b c = true -> Record_eq a c = true) /\
  (forall a : record,
     Record_eq a a = true <->
     ~ (ci_substring "Wallet" (exchange a) \/
        ci_substring "Transaction" (exchange a))) /\
  (forall a b : record, Record_eq a b = true -> Record_eq a a = true).
Proof.
  split; [|split].
  - intros a b c Hab Hbc.
    apply Record_eq_true_iff in Hab. apply Record_eq_true_iff in Hbc.
    apply Record_eq_true_iff.
    destruct Hab as (Hx & H1 & H2 & H3 & H4 & H5 & H6).
    destruct Hbc as (_ & K1 & K2 & K3 & K4 & K5 & K6).
    repeat split; congruence.
  - intros a. rewrite Record_eq_refl_iff, <- exchange_excepted_iff.
    destruct (exchange_excepted (exchange a)); simpl; split;
      congruence || (intros H; exfalso; apply H; reflexivity) || auto.
  - intros a b Hab. apply Record_eq_true_iff in Hab.
    rewrite Record_eq_refl_iff. destruct Hab as (-> & _). reflexivity.
Qed.

Lemma X1_witness :
  exists a b c,
    Record_of_row row_trade_1331 = Ok a /\
    Record_of_row row_trade_1400 = Ok b /\
    Record_of_row row_trade_1331 = Ok c /\
    Record_eq a c = true /\ Record_eq a a = true.
Proof.
  destruct X1_Record_eq_partial_equivalence as (Htr & _ & Hre).
  with_ok (Record_of_row row_trade_1331) ltac:(fun a =>
  with_ok (Record_of_row row_trade_1400) ltac:(fun b =>
    exists a, b, a;
    pose proof (Htr a b a) as H1; pose proof (Hre a b) as H2)).
  split; [reflexivity|]. split; [reflexivity|]. split; [reflexivity|].
  split; [apply H1; reflexivity | apply H2; reflexivity].
Defined.

(** ** Exceptions *)

Lemma of_string_raises (s : string) (e : exn) :
  Dec.of_string s = Raise e -> e = InvalidOperation.
Proof.
  unfold Dec.of_string.
  destruct (Dec.parse_sign _) as [sg r].
  destruct (Dec.parse_finite r) as [[c x]|]; [discriminate|].
  destruct (Dec.parse_special sg r); [discriminate|].
  intros H. injection H as <-. reflexivity.
Qed.

Lemma amount_of_cell_raises (s : string) (e : exn) :
  amount_of_arg (AStr s) = Raise e -> e = InvalidOperation.
Proof.
  unfold amount_of_arg. destruct (arg_truthy (AStr s)); [|discriminate].
  simpl. destruct (Dec.of_string s) eqn:E; simpl; [discriminate|].
  intros H. injection H as <-. eapply of_string_raises; eauto.
Qed.

Lemma Record_of_row_length (rw : row) (r : record) :
  Record_of_row rw = Ok r -> List.length rw = 12%nat.
Proof.
  unfold Record_of_row.
  do 12 (destruct rw as [|? rw]; [discriminate|]).
  destruct rw; [reflexivity | discriminate].
Qed.

Lemma Record_of_row_raises (rw : row) (e : exn) :
  Record_of_row rw = Raise e ->
  (e = TypeError /\ List.length rw <> 12%nat) \/
  (e = InvalidOperation /\ List.length rw = 12%nat).
Proof.
  unfold Record_of_row.
  do 12 (destruct rw as [|? rw];
         [intros H; injection H as <-; left; split; [reflexivity|discriminate]|]).
  destruct rw;
    [|intros H; injection H as <-; left; split; [reflexivity|discriminate]].
  intros H. right. split; [|reflexivity].
  unfold Record_init in H.
  destruct (amount_of_arg (AStr s0)) eqn:E1; simpl in H;
    [|injection H as <-; eapply amount_of_cell_raises; eauto].
  destruct (amount_of_arg (AStr s2)) eqn:E2; simpl in H;
    [|injection H as <-; eapply amount_of_cell_raises; eauto].
  destruct (amount_of_arg (AStr s4)) eqn:E3; simpl in H;
    [discriminate|injection H as <-; eapply amount_of_cell_raises; eauto].
Qed.

(** X2: building a record from a row raises TypeError exactly when the
    row does not have twelve cells; the only other exception is
    InvalidOperation, for a row of twelve cells with an amount that is
    not a decimal literal. *)
Theorem X2_Record_of_row_exceptions (rw : row) :
  (Record_of_row rw = Raise TypeError <-> List.length rw <> 12%nat) /\
  (forall e, Record_of_row rw = Raise e ->
             e = TypeError \/ e = InvalidOperation) /\
  (forall r, Record_of_row rw = Ok r -> List.length rw = 12%nat).
Proof.
  split; [|split].
  - split.
    + intros H. apply Record_of_row_raises in H.
      destruct H as [[_ H] | [H _]]; [exact H | discriminate].
    + intros H. destruct (Record_of_row rw) as [r|e] eqn:E.
      * apply Record_of_row_length in E. contradiction.
      * apply Record_of_row_raises in E.
        destruct E as [[-> _] | [_ E]]; [reflexivity | contradiction].
  - intros e H. apply Record_of_row_raises in H. tauto.
  - apply Record_of_row_length.
Qed.

Lemma X2_witness :
  Record_of_row ["Trade"; "1"; "BTC"] = Raise TypeError /\
  List.length row_trade_1331 = 12%nat.
Proof.
  split.
  - apply (proj1 (X2_Record_of_row_exceptions ["Trade"; "1"; "BTC"])).
    simpl. discriminate.
  - with_ok (Record_of_row row_trade_1331) ltac:(fun r =>
      apply (proj2 (proj2 (X2_Record_of_row_exceptions row_trade_1331)) r)).
    reflexivity.
Defined.

Lemma fix_finite_raises (s : bool) (c : N) (x : Z) (e : exn) :
  Dec.fix_finite s c x = Raise e -> e = Overflow.
Proof.
  unfold Dec.fix_finite.
  repeat match goal with
         | |- context [if ?b then _ else _] => destruct b
         | |- context [let '(_, _) := ?p in _] => destruct p
         end; intros H; try discriminate H; injection H as <-; reflexivity.
Qed.

Lemma add_raises (a b : Dec.Decimal) (e : exn) :
  Dec.add a b = Raise e -> e = InvalidOperation \/ e = Overflow.
Proof.
  destruct a as [s1 c1 e1|s1|s1 [|] p1], b as [s2 c2 e2|s2|s2 [|] p2];
    simpl; intros H; try discriminate H;
    try (injection H as <-; left; reflexivity).
  - right. eapply fix_finite_raises. exact H.
  - destruct (xorb s1 s2); [injection H as <-; left; reflexivity
                           | discriminate H].
Qed.

Lemma amount_sum_raises (x y : option Dec.Decimal) (e : exn) :
  amount_sum x y = Raise e -> e = InvalidOperation \/ e = Overflow.
Proof.
  destruct x as [a|], y as [b|]; simpl; try discriminate.
  destruct (Dec.add a b) eqn:E; simpl; [discriminate|].
  intros H. injection H as <-. eapply add_raises. exact E.
Qed.

Lemma amount_of_sum_ok (x y : option Dec.Decimal) (a : amount_arg) :
  amount_sum x y = Ok a -> exists z, amount_of_arg a = Ok z.
Proof.
  destruct x as [dx|], y as [dy|]; simpl; intros H;
    try (injection H as <-; exists None; reflexivity).
  destruct (Dec.add dx dy) as [d|]; simpl in H; [|discriminate].
  injection H as <-. unfold amount_of_arg.
  destruct (arg_truthy (ADec d)); simpl; eauto.
Qed.

Lemma Record_add_raises (a b : record) (e : exn) :
  Record_add a b = Raise e -> e = InvalidOperation \/ e = Overflow.
Proof.
  unfold Record_add.
  destruct (amount_sum (buyamt a) (buyamt b)) as [x|] eqn:E1; simpl;
    [|intros H; injection H as <-; eapply amount_sum_raises; eauto].
  destruct (amount_sum (sellamt a) (sellamt b)) as [y|] eqn:E2; simpl;
    [|intros H; injection H as <-; eapply amount_sum_raises; eauto].
  destruct (amount_sum (fee a) (fee b)) as [z|] eqn:E3; simpl;
    [|intros H; injection H as <-; eapply amount_sum_raises; eauto].
  destruct (amount_of_sum_ok _ _ _ E1) as [x' Hx].
  destruct (amount_of_sum_ok _ _ _ E2) as [y' Hy].
  destruct (amount_of_sum_ok _ _ _ E3) as [z' Hz].
  unfold Record_init. rewrite Hx, Hy, Hz. simpl. discriminate.
Qed.

(** Once the header is read, an iteration keeps it, and it leaves an
    accumulator. *)
Lemma loop_body_invariant (st st' : loop_state) (r hd : row) :
  header st = Some hd -> loop_body st r = Ok st' ->
  header st' = Some hd /\ exists p, previous st' = Some p.
Proof.
  intros Hh H. unfold loop_body in H. rewrite Hh in H.
  inv_bind H. destruct (previous st) as [prev|] eqn:Hp.
  - destruct (is_lost_fee x).
    + injection H as <-. eauto.
    + destruct (Record_eq x prev).
      * inv_bind H. injection H as <-. simpl. eauto.
      * injection H as <-. simpl. eauto.
  - injection H as <-. simpl. eauto.
Qed.

Lemma run_loop_header (rows : list row) :
  forall st st' hd,
    header st = Some hd -> run_loop rows st = Ok st' -> header st' = Some hd.
Proof.
  induction rows as [|r rest IH]; intros st st' hd Hh H; simpl in H.
  - injection H as <-. exact Hh.
  - inv_bind H. eapply IH; [|exact H].
    eapply loop_body_invariant; eauto.
Qed.

Lemma run_loop_previous (rows : list row) :
  forall st st' hd p,
    header st = Some hd -> previous st = Some p ->
    run_loop rows st = Ok st' -> exists p', previous st' = Some p'.
Proof.
  induction rows as [|r rest IH]; intros st st' hd p Hh Hp H; simpl in H.
  - injection H as <-. eauto.
  - inv_bind H.
    destruct (loop_body_invariant _ _ _ _ Hh Hx) as [Hh' [p' Hp']].
    eapply IH; eauto.
Qed.

Lemma loop_body_raises (st : loop_state) (r hd : row) (e : exn) :
  header st = Some hd -> loop_body st r = Raise e ->
  Record_of_row r = Raise e \/ e = InvalidOperation \/ e = Overflow.
Proof.
  intros Hh H. unfold loop_body in H. rewrite Hh in H.
  destruct (Record_of_row r) as [rec|e'] eqn:E; simpl in H;
    [|injection H as <-; left; reflexivity].
  destruct (previous st) as [prev|]; [|discriminate].
  destruct (is_lost_fee rec); [discriminate|].
  destruct (Record_eq rec prev); [|discriminate].
  destruct (Record_add prev rec) eqn:Ea; simpl in H; [discriminate|].
  injection H as <-. right. eapply Record_add_raises. exact Ea.
Qed.

Lemma run_loop_raises (rows : list row) :
  forall st hd e,
    header st = Some hd -> run_loop rows st = Raise e ->
    (exists r, In r rows /\ Record_of_row r = Raise e) \/
    e = InvalidOperation \/ e = Overflow.
Proof.
  induction rows as [|r rest IH]; intros st hd e Hh H; simpl in H.
  - discriminate.
  - destruct (loop_body st r) as [st1|e1] eqn:E1; simpl in H.
    + destruct (loop_body_invariant _ _ _ _ Hh E1) as [Hh1 _].
      destruct (IH _ _ _ Hh1 H) as [(r' & Hin & Hr) | Hd]; [|auto].
      left. exists r'. split; [right; exact Hin | exact Hr].
    + injection H as <-.
      destruct (loop_body_raises _ _ _ _ Hh E1) as [Hr | Hd]; [|auto].
      left. exists r. split; [left; reflexivity | exact Hr].
Qed.

Lemma records_of_rows_lengths (rows : list row) :
  forall recs, records_of_rows rows = Ok recs ->
    List.length recs = List.length rows /\
    Forall (fun r => List.length r = 12%nat) rows.
Proof.
  induction rows as [|r rest IH]; intros recs H; simpl in H.
  - injection H as <-. auto.
  - inv_bind H. inv_bind H. injection H as <-.
    destruct (IH _ Hx0) as [Hl Hf]. simpl. split; [congruence|].
    constructor; [eapply Record_of_row_length; eauto | exact Hf].
Qed.

(** X3: [process_csv] raises ValueError exactly when the input has no
    row at all, not even a header.  When it raises TypeError, a data row
    does not have twelve cells; when it returns, the input has a header
    and every data row has twelve cells. *)
Theorem X3_process_csv_exceptions (rows : list row) :
  (process_csv rows = Raise ValueError <-> rows = []) /\
  (process_csv rows = Raise TypeError ->
   exists r, In r (tl rows) /\ List.length r <> 12%nat) /\
  (forall out, process_csv rows = Ok out ->
     exists hd data,
       rows = hd :: data /\
       Forall (fun r => List.length r = 12%nat) data).
Proof.
  destruct rows as [|hd data].
  - split; [split; reflexivity|]. split; discriminate.
  - assert (Hrun : forall e,
              run_loop data (mkState [] None (Some hd)) = Raise e ->
              (exists r, In r data /\ Record_of_row r = Raise e) \/
              e = InvalidOperation \/ e = Overflow).
    { intros e. apply (run_loop_raises data _ hd). reflexivity. }
    assert (Hp : forall e, process_csv (hd :: data) = Raise e ->
                 run_loop data (mkState [] None (Some hd)) = Raise e).
    { intros e H. unfold process_csv, reduce_rows in H. simpl in H.
      destruct (run_loop data _) as [st|e'] eqn:E; simpl in H.
      - pose proof (run_loop_header data (mkState [] None (Some hd)) st hd
                      eq_refl E) as Hh.
        unfold write_output in H. simpl in H. rewrite Hh in H. discriminate.
      - injection H as <-. reflexivity. }
    split; [|split].
    + split; [|discriminate]. intros H. apply Hp, Hrun in H.
      destruct H as [(r & _ & Hr) | [H | H]]; try discriminate.
      apply Record_of_row_raises in Hr.
      destruct Hr as [[Hr _] | [Hr _]]; discriminate.
    + intros H. apply Hp, Hrun in H.
      destruct H as [(r & Hin & Hr) | [H | H]]; try discriminate.
      apply Record_of_row_raises in Hr.
      destruct Hr as [[_ Hr] | [Hr _]]; [|discriminate].
      exists r. auto.
    + intros out H. exists hd, data. split; [reflexivity|].
      unfold process_csv in H. inv_bind H.
      destruct (reduce_rows_groups hd data x Hx)
        as (recs & gs & reps & H1 & _).
      eapply records_of_rows_lengths. exact H1.
Qed.

Lemma X3_witness :
  process_csv [] = Raise ValueError /\
  (exists r, In r [row_trade_1331; ["Trade"; "1"]] /\
             List.length r <> 12%nat) /\
  Forall (fun r => List.length r = 12%nat) [row_trade_1331; row_trade_1400].
Proof.
  split; [|split].
  - apply (proj1 (X3_process_csv_exceptions [])). reflexivity.
  - apply (proj1 (proj2 (X3_process_csv_exceptions
                           [sample_header; row_trade_1331; ["Trade"; "1"]]))).
    reflexivity.
  - with_ok (process_csv [sample_header; row_trade_1331; row_trade_1400])
      ltac:(fun out =>
        destruct (proj2 (proj2 (X3_process_csv_exceptions
                    [sample_header; row_trade_1331; row_trade_1400])) out)
          as (hd & data & Heq & Hf)).
    + reflexivity.
    + injection Heq as <- <-. exact Hf.
Defined.

(** ** The count of exported records *)

Lemma groups_length (reps : list record) (gs : list (list record)) :
  Forall2 represents reps gs ->
  (List.length reps <= List.length (concat gs))%nat /\
  (gs <> [] -> reps <> []).
Proof.
  induction 1 as [|rep g reps gs (h & t & -> & _) _ [IH _]]; simpl.
  - split; [apply Nat.le_refl | congruence].
  - split; [|discriminate].
    rewrite length_app. simpl. apply le_n_S.
    eapply Nat.le_trans; [exact IH|]. apply Nat.le_add_l.
Qed.

(** X4: the count printed at the end is at least one and at most the
    number of data rows, or one when there is no data row. *)
Theorem X4_exported_count_bounds (hd : row) (data : list row)
    (text : string) (n : nat) :
  process_csv (hd :: data) = Ok (text, n) ->
  (1 <= n <= Nat.max 1 (List.length data))%nat.
Proof.
  intros H. unfold process_csv in H. inv_bind H.
  destruct (reduce_rows_groups hd data x Hx)
    as (recs & gs & reps & H1 & H2 & H3 & H4 & H5 & H6 & _).
  unfold write_output in H. rewrite H2 in H. injection H as _ <-.
  destruct (records_of_rows_lengths _ _ H1) as [Hl _].
  destruct (groups_length _ _ H6) as [Hle Hne].
  rewrite H3. destruct recs as [|r recs].
  - cbn [List.length]. lia.
  - rewrite length_map. rewrite H5, Hl in Hle.
    assert (Hr : reps <> []).
    { apply Hne. intros ->. discriminate H5. }
    destruct reps as [|rep reps]; [congruence|].
    cbn [List.length] in *. lia.
Qed.

Lemma X4_witness :
  exists text n,
    process_csv [sample_header; row_trade_1331; row_trade_1400;
                 row_trade_next_day] = Ok (text, n) /\
    (1 <= n <= 3)%nat.
Proof.
  with_ok (process_csv [sample_header; row_trade_1331; row_trade_1400;
                        row_trade_next_day])
    ltac:(fun out =>
      match out with
      | (?t, ?n) =>
          exists t, n;
          pose proof (X4_exported_count_bounds sample_header
                        [row_trade_1331; row_trade_1400; row_trade_next_day]
                        t n) as H
      end).
  split; [reflexivity|]. apply H. reflexivity.
Defined.

(** ** Every output record is its group merged from the left *)

Lemma merge_all_snoc (l : list record) :
  forall h acc x,
    merge_all h l = Ok acc ->
    merge_all h (l ++ [x]) = Record_add acc x.
Proof.
  induction l as [|y l IH]; intros h acc x H; simpl in *.
  - injection H as <-. destruct (Record_add h x); reflexivity.
  - destruct (Record_add h y) as [s|]; simpl in *; [|discriminate].
    eapply IH; eauto.
Qed.

Lemma merged_members_snoc (t : list record) (x : record) :
  merged_members (t ++ [x]) =
  if is_lost_fee x then merged_members t else merged_members t ++ [x].
Proof.
  unfold merged_members. rewrite filter_app. simpl.
  destruct (is_lost_fee x); simpl; [apply app_nil_r | reflexivity].
Qed.

Lemma run_loop_folds (rows : list row) :
  forall st st' acc h t0 hd,
    header st = Some hd -> previous st = Some acc ->
    constructed acc -> key acc = key h -> group_members h t0 ->
    merge_all h (merged_members t0) = Ok acc ->
    run_loop rows st = Ok st' ->
    exists recs t gs reps last,
      records_of_rows rows = Ok recs /\
      previous st' = Some last /\
      output st' ++ [Some last] = output st ++ map Some reps /\
      Forall2 folds_to reps ((h :: t0 ++ t) :: gs) /\
      concat ((h :: t0 ++ t) :: gs) = (h :: t0) ++ recs /\
      separated ((h :: t0 ++ t) :: gs).
Proof.
  induction rows as [|r rest IH];
    intros st st' acc h t0 hd Hh Hp Hc Hk Hm Hf Hrun.
  - simpl in Hrun. injection Hrun as <-.
    exists [], [], [], [acc], acc. rewrite !app_nil_r. simpl.
    repeat split; auto.
    + constructor; [|constructor]. exists h, t0. auto.
    + rewrite app_nil_r. reflexivity.
  - simpl in Hrun. inv_bind Hrun. rename x into st1.
    unfold loop_body in Hx. rewrite Hh in Hx.
    inv_bind Hx. rename x into rec. rewrite Hp in Hx.
    assert (Hrec : constructed rec) by (eapply Record_of_row_constructed; eauto).
    simpl records_of_rows. rewrite Hx0. simpl bind.
    destruct (is_lost_fee rec) eqn:Elf.
    + injection Hx as <-.
      assert (Hf' : merge_all h (merged_members (t0 ++ [rec])) = Ok acc)
        by (rewrite merged_members_snoc, Elf; exact Hf).
      destruct (IH st st' acc h (t0 ++ [rec]) hd Hh Hp Hc Hk
                  (group_members_snoc _ _ _ Hm (or_introl Elf)) Hf' Hrun)
        as (recs & t & gs & reps & last & H1 & H2 & H4 & H5 & H6 & H7).
      rewrite <- app_assoc in H5, H6, H7. simpl in H5, H6, H7.
      destruct H7 as [H7 H7'].
      exists (rec :: recs), (rec :: t), gs, reps, last.
      rewrite H1. simpl bind. repeat split; auto.
      simpl. rewrite H6, <- app_assoc. reflexivity.
    + destruct (Record_eq rec acc) eqn:Eeq.
      * inv_bind Hx. rename x into sum. injection Hx as <-.
        assert (Hks : key sum = key h)
          by (rewrite <- Hk; eapply Record_add_key; eauto).
        assert (Hcs : constructed sum)
          by (eapply Record_add_constructed; eauto).
        assert (Hmem : Record_eq rec h = true)
          by (rewrite <- (Record_eq_key_r rec acc h Hk); exact Eeq).
        assert (Hf' : merge_all h (merged_members (t0 ++ [rec])) = Ok sum).
        { rewrite merged_members_snoc, Elf.
          rewrite (merge_all_snoc _ _ _ rec Hf). exact Hx1. }
        destruct (IH (mkState (output st) (Some sum) (Some hd)) st' sum h
                    (t0 ++ [rec]) hd eq_refl eq_refl Hcs Hks
                    (group_members_snoc _ _ _ Hm (or_intror Hmem)) Hf' Hrun)
          as (recs & t & gs & reps & last & H1 & H2 & H4 & H5 & H6 & H7).
        rewrite <- app_assoc in H5, H6, H7. simpl in H4, H5, H6, H7.
        destruct H7 as [H7 H7'].
        exists (rec :: recs), (rec :: t), gs, reps, last.
        rewrite H1. simpl bind. repeat split; auto.
        simpl. rewrite H6, <- app_assoc. reflexivity.
      * injection Hx as <-.
        destruct (IH (mkState (output st ++ [Some acc]) (Some rec) (Some hd))
                    st' rec rec [] hd eq_refl eq_refl Hrec eq_refl
                    (Forall_nil _) eq_refl Hrun)
          as (recs & t & gs & reps & last & H1 & H2 & H4 & H5 & H6 & H7).
        simpl in H4, H5, H6, H7. destruct H7 as [H7 H7'].
        exists (rec :: recs), [], ((rec :: t) :: gs), (acc :: reps), last.
        rewrite H1. simpl bind. rewrite !app_nil_r.
        repeat split; auto.
        -- rewrite H4, <- app_assoc. reflexivity.
        -- constructor; [|exact H5]. exists h, t0. auto.
        -- simpl. rewrite H6. reflexivity.
        -- rewrite <- (Record_eq_key_r rec acc h Hk). exact Eeq.
Qed.

Lemma reduce_rows_folds (hd : row) (rows : list row) (st : loop_state) :
  reduce_rows (hd :: rows) = Ok st ->
  exists recs gs,
    records_of_rows rows = Ok recs /\
    concat gs = recs /\
    Forall2 folds_to (emitted (output st)) gs /\
    separated gs.
Proof.
  unfold reduce_rows. intros H. inv_bind H. injection H as <-.
  simpl in Hx. destruct rows as [|r rest].
  - simpl in Hx. injection Hx as <-.
    exists [], []. simpl. repeat split; auto.
  - simpl in Hx. inv_bind Hx. rename x0 into st1.
    inv_bind Hx0. rename x0 into rec. injection Hx0 as <-.
    assert (Hrec : constructed rec) by (eapply Record_of_row_constructed; eauto).
    destruct (run_loop_folds rest (mkState [] (Some rec) (Some hd)) x rec rec
                [] hd eq_refl eq_refl Hrec eq_refl (Forall_nil _) eq_refl Hx)
      as (recs & t & gs & reps & last & H1 & H2 & H4 & H5 & H6 & H7).
    simpl in H4, H5, H6, H7. destruct H7 as [H7 H7'].
    exists (rec :: recs), ((rec :: t) :: gs).
    simpl records_of_rows. rewrite Hx1, H1. simpl bind.
    unfold flush. simpl output. rewrite H2, H4.
    rewrite emitted_map_Some. repeat split; auto.
Qed.

(** X5: the data records split, in input order, into consecutive groups
    (later members: fee lines or records in the group of the first member;
    the next first member: neither), and the output holds, group by group,
    the first member with the later members other than fee lines added to
    it one after the other from the left. *)
Theorem X5_output_is_left_fold_of_groups (hd : row) (rows : list row)
    (st : loop_state) :
  reduce_rows (hd :: rows) = Ok st ->
  exists recs gs,
    records_of_rows rows = Ok recs /\
    concat gs = recs /\
    Forall2 folds_to (emitted (output st)) gs /\
    separated gs.
Proof. apply reduce_rows_folds. Qed.

Lemma X5_witness :
  exists st,
    reduce_rows [sample_header; row_trade_1331; row_lost_fee;
                 row_trade_1400; row_trade_next_day] = Ok st /\
    exists recs gs,
      records_of_rows [row_trade_1331; row_lost_fee; row_trade_1400;
                       row_trade_next_day] = Ok recs /\
      concat gs = recs /\
      Forall2 folds_to (emitted (output st)) gs /\
      separated gs.
Proof.
  with_ok (reduce_rows [sample_header; row_trade_1331; row_lost_fee;
                        row_trade_1400; row_trade_next_day])
    ltac:(fun st => exists st).
  split; [reflexivity|].
  apply (X5_output_is_left_fold_of_groups sample_header). reflexivity.
Defined.

(** ** Group, comment and absent amounts of a whole group *)

Lemma first_nonempty_merge (a b : string) (l : list string) :
  first_nonempty ((if PyStr.truthy a then a else b) :: l) =
  first_nonempty (a :: b :: l).
Proof.
  cbn [first_nonempty]. destruct (PyStr.truthy a) eqn:E.
  - rewrite E. reflexivity.
  - reflexivity.
Qed.

Lemma merge_all_annotations (l : list record) :
  forall h m,
    merge_all h l = Ok m ->
    group m = first_nonempty (map group (h :: l)) /\
    comment m = first_nonempty (map comment (h :: l)).
Proof.
  induction l as [|x l IH]; intros h m H; simpl in H.
  - injection H as <-. simpl.
    destruct (group h), (comment h); auto.
  - inv_bind H. rename x0 into sum.
    destruct (IH _ _ H) as [Hg Hc].
    apply Record_add_fields in Hx.
    destruct Hx as (_ & _ & _ & _ & _ & _ & _ & Hsg & Hsc).
    cbn [map] in *. rewrite Hsg in Hg. rewrite Hsc in Hc.
    rewrite first_nonempty_merge in Hg, Hc. auto.
Qed.

(** X6: the group (the comment) of an output record is the first non-empty
    group (comment) among the merged members of its group, in input order,
    and empty when none of them has one. *)
Theorem X6_group_and_comment_of_output (hd : row) (rows : list row)
    (st : loop_state) :
  reduce_rows (hd :: rows) = Ok st ->
  exists recs gs,
    records_of_rows rows = Ok recs /\
    concat gs = recs /\
    Forall2
      (fun rep g =>
         exists h t,
           g = h :: t /\
           group rep = first_nonempty (map group (h :: merged_members t)) /\
           comment rep
           = first_nonempty (map comment (h :: merged_members t)))
      (emitted (output st)) gs.
Proof.
  intros H. destruct (reduce_rows_folds hd rows st H)
    as (recs & gs & H1 & H2 & H3 & _).
  exists recs, gs. repeat split; auto.
  eapply Forall2_impl; [|exact H3].
  intros rep g (h & t & -> & _ & Hf). exists h, t.
  split; [reflexivity|]. apply merge_all_annotations. exact Hf.
Qed.

Lemma X6_witness :
  exists st,
    reduce_rows [sample_header; row_trade_1331; row_trade_1400;
                 row_trade_next_day] = Ok st /\
    exists recs gs,
      records_of_rows [row_trade_1331; row_trade_1400; row_trade_next_day]
        = Ok recs /\
      concat gs = recs /\
      Forall2
        (fun rep g =>
           exists h t,
             g = h :: t /\
             group rep = first_nonempty (map group (h :: merged_members t)) /\
             comment rep
             = first_nonempty (map comment (h :: merged_members t)))
        (emitted (output st)) gs.
Proof.
  with_ok (reduce_rows [sample_header; row_trade_1331; row_trade_1400;
                        row_trade_next_day])
    ltac:(fun st => exists st).
  split; [reflexivity|].
  apply (X6_group_and_comment_of_output sample_header). reflexivity.
Defined.

Lemma Record_add_absent (a b m : record) :
  Record_add a b = Ok m ->
  (buyamt a = None \/ buyamt b = None -> buyamt m = None) /\
  (sellamt a = None \/ sellamt b = None -> sellamt m = None) /\
  (fee a = None \/ fee b = None -> fee m = None).
Proof.
  intros H. apply Record_add_inv in H.
  destruct H as (x & y & z & Hx & Hy & Hz & H).
  apply Record_init_inv in H.
  destruct H as (b' & s' & f' & Hb & Hs & Hf & ->). simpl.
  split; [|split].
  - exact (proj1 (merged_amount_in_precision _ _ _ _ Hx Hb)).
  - exact (proj1 (merged_amount_in_precision _ _ _ _ Hy Hs)).
  - exact (proj1 (merged_amount_in_precision _ _ _ _ Hz Hf)).
Qed.

Lemma merge_all_absent (l : list record) :
  forall h m x,
    merge_all h l = Ok m -> In x (h :: l) ->
    (buyamt x = None -> buyamt m = None) /\
    (sellamt x = None -> sellamt m = None) /\
    (fee x = None -> fee m = None).
Proof.
  induction l as [|y l IH]; intros h m x H Hin; simpl in H.
  - injection H as <-. destruct Hin as [<- | []]. auto.
  - inv_bind H. rename x0 into sum.
    destruct (Record_add_absent _ _ _ Hx) as (Hb & Hs & Hf).
    destruct (IH sum m sum H (or_introl eq_refl)) as (Kb & Ks & Kf).
    destruct Hin as [<- | [<- | Hin]].
    + repeat split; auto.
    + repeat split; auto.
    + apply (IH sum m x H). right. exact Hin.
Qed.

(** X7: an amount of an output record is absent as soon as one merged
    member of its group has no such amount, for buyAmount, sellAmount and
    fee each on its own. *)
Theorem X7_absent_amount_of_a_group (hd : row) (rows : list row)
    (st : loop_state) :
  reduce_rows (hd :: rows) = Ok st ->
  exists recs gs,
    records_of_rows rows = Ok recs /\
    concat gs = recs /\
    Forall2
      (fun rep g =>
         exists h t,
           g = h :: t /\
           forall x, In x (h :: merged_members t) ->
             (buyamt x = None -> buyamt rep = None) /\
             (sellamt x = None -> sellamt rep = None) /\
             (fee x = None -> fee rep = None))
      (emitted (output st)) gs.
Proof.
  intros H. destruct (reduce_rows_folds hd rows st H)
    as (recs & gs & H1 & H2 & H3 & _).
  exists recs, gs. repeat split; auto.
  eapply Forall2_impl; [|exact H3].
  intros rep g (h & t & -> & _ & Hf). exists h, t.
  split; [reflexivity|]. intros x. apply merge_all_absent. exact Hf.
Qed.

Lemma X7_witness :
  exists st,
    reduce_rows [sample_header; row_lost; row_lost; row_trade_1331] = Ok st /\
    exists recs gs,
      records_of_rows [row_lost; row_lost; row_trade_1331] = Ok recs /\
      concat gs = recs /\
      Forall2
        (fun rep g =>
           exists h t,
             g = h :: t /\
             forall x, In x (h :: merged_members t) ->
               (buyamt x = None -> buyamt rep = None) /\
               (sellamt x = None -> sellamt rep = None) /\
               (fee x = None -> fee rep = None))
        (emitted (output st)) gs.
Proof.
  with_ok (reduce_rows [sample_header; row_lost; row_lost; row_trade_1331])
    ltac:(fun st => exists st).
  split; [reflexivity|].
  apply (X7_absent_amount_of_a_group sample_header). reflexivity.
Defined.

(** ** Records that are not merged *)

Lemma run_loop_distinct (rows : list row) :
  forall recs st acc hd,
    header st = Some hd -> previous st = Some acc ->
    records_of_rows rows = Ok recs ->
    adjacent_distinct (acc :: recs) ->
    exists st' last,
      run_loop rows st = Ok st' /\
      previous st' = Some last /\
      output st' ++ [Some last] = output st ++ map Some (acc :: recs).
Proof.
  induction rows as [|r rest IH]; intros recs st acc hd Hh Hp Hr Hd;
    simpl in Hr.
  - injection Hr as <-. exists st, acc. simpl. auto.
  - inv_bind Hr. rename x into rec. inv_bind Hr. rename x into recs'.
    injection Hr as <-.
    destruct Hd as [[Hl He] Hd].
    destruct (IH recs'
                (mkState (output st ++ [Some acc]) (Some rec) (Some hd))
                rec hd eq_refl eq_refl Hx0 Hd)
      as (st' & last & H1 & H2 & H3).
    exists st', last. simpl run_loop. unfold loop_body.
    rewrite Hh, Hx. simpl bind. rewrite Hp, Hl, He.
    split; [exact H1|]. split; [exact H2|].
    rewrite H3. simpl. rewrite <- app_assoc. reflexivity.
Qed.

Lemma reduce_rows_distinct (hd : row) (rows : list row)
    (recs : list record) :
  records_of_rows rows = Ok recs ->
  adjacent_distinct recs ->
  exists st,
    reduce_rows (hd :: rows) = Ok st /\ emitted (output st) = recs.
Proof.
  intros Hr Hd. unfold reduce_rows. simpl.
  destruct rows as [|r rest]; simpl in Hr.
  - injection Hr as <-. simpl. eexists. split; reflexivity.
  - inv_bind Hr. rename x into rec. inv_bind Hr. rename x into recs'.
    injection Hr as <-.
    destruct (run_loop_distinct rest recs'
                (mkState [] (Some rec) (Some hd)) rec hd
                eq_refl eq_refl Hx0 Hd)
      as (st' & last & H1 & H2 & H3).
    cbn [run_loop]. unfold loop_body. cbn [header previous output].
    rewrite Hx. cbn [bind]. rewrite H1. cbn [bind].
    eexists. split; [reflexivity|].
    unfold flush. simpl output. rewrite H2, H3. simpl app.
    apply (emitted_map_Some (rec :: recs')).
Qed.

(** X8: when every data row gives a record and no record after the first
    is a fee line or in the group of the record before it, the reducer
    returns and its output is the records of the rows, unchanged and in
    order. *)
Theorem X8_distinct_records_pass_through (hd : row) (rows : list row)
    (recs : list record) :
  records_of_rows rows = Ok recs ->
  adjacent_distinct recs ->
  exists st,
    reduce_rows (hd :: rows) = Ok st /\ emitted (output st) = recs.
Proof. apply reduce_rows_distinct. Qed.

Lemma X8_witness :
  exists st,
    reduce_rows [sample_header; row_trade_1331; row_trade_next_day;
                 row_wallet; row_wallet] = Ok st /\
    exists recs,
      records_of_rows [row_trade_1331; row_trade_next_day; row_wallet;
                       row_wallet] = Ok recs /\
      emitted (output st) = recs.
Proof.
  with_ok (records_of_rows [row_trade_1331; row_trade_next_day; row_wallet;
                            row_wallet])
    ltac:(fun recs =>
      destruct (X8_distinct_records_pass_through sample_header
                  [row_trade_1331; row_trade_next_day; row_wallet; row_wallet]
                  recs) as (st & H1 & H2)).
  - reflexivity.
  - simpl. repeat split; reflexivity.
  - exists st. split; [exact H1|]. eexists. split; [reflexivity | exact H2].
Defined.

(** ** A fee line after the first data row *)

Lemma run_loop_app (l1 l2 : list row) :
  forall st,
    run_loop (l1 ++ l2) st = (st' <- run_loop l1 st ;; run_loop l2 st').
Proof.
  induction l1 as [|r l1 IH]; intros st; simpl; [reflexivity|].
  destruct (loop_body st r); simpl; [apply IH | reflexivity].
Qed.

(** X9: a Binance "Lost" fee line anywhere after the first data row can
    be deleted from the input: the result of [process_csv], text and count
    or exception, is the same. *)
Theorem X9_fee_line_after_first_row_is_ignored (hd r1 : row)
    (pre post : list row) (fee_row : row) (rec : record) :
  Record_of_row fee_row = Ok rec -> is_lost_fee rec = true ->
  process_csv (hd :: r1 :: pre ++ fee_row :: post)
  = process_csv (hd :: r1 :: pre ++ post).
Proof.
  intros Hr Hl. unfold process_csv, reduce_rows.
  simpl run_loop. simpl bind.
  destruct (loop_body (mkState [] None (Some hd)) r1) as [s1|e] eqn:E1;
    simpl bind; [|reflexivity].
  destruct (loop_body_invariant (mkState [] None (Some hd)) s1 r1 hd
              eq_refl E1) as [Hh1 [p1 Hp1]].
  rewrite !run_loop_app.
  destruct (run_loop pre s1) as [s2|e] eqn:E2; simpl bind; [|reflexivity].
  pose proof (run_loop_header _ _ _ _ Hh1 E2) as Hh2.
  destruct (run_loop_previous _ _ _ _ _ Hh1 Hp1 E2) as [p2 Hp2].
  simpl run_loop.
  rewrite (lost_fee_skipped s2 fee_row hd p2 rec Hh2 Hp2 Hr Hl).
  reflexivity.
Qed.

Lemma X9_witness :
  process_csv [sample_header; row_trade_1331; row_lost_fee; row_trade_1400]
  = process_csv [sample_header; row_trade_1331; row_trade_1400].
Proof.
  with_ok (Record_of_row row_lost_fee) ltac:(fun rec =>
    apply (X9_fee_line_after_first_row_is_ignored sample_header
             row_trade_1331 [] [row_trade_1400] row_lost_fee rec));
    reflexivity.
Defined.

(** ** Records already emitted are final *)

Lemma loop_body_output_grows (st st' : loop_state) (r : row) :
  loop_body st r = Ok st' -> exists l, output st' = output st ++ l.
Proof.
  unfold loop_body. intros H.
  destruct (header st).
  - inv_bind H. destruct (previous st) as [prev|].
    + destruct (is_lost_fee x).
      * injection H as <-. exists []. symmetry. apply app_nil_r.
      * destruct (Record_eq x prev).
        -- inv_bind H. injection H as <-. exists []. symmetry. apply app_nil_r.
        -- injection H as <-. exists [Some prev]. reflexivity.
    + injection H as <-. exists []. symmetry. apply app_nil_r.
  - injection H as <-. exists []. symmetry. apply app_nil_r.
Qed.

Lemma run_loop_output_grows (rows : list row) :
  forall st st',
    run_loop rows st = Ok st' -> exists l, output st' = output st ++ l.
Proof.
  induction rows as [|r rest IH]; intros st st' H; simpl in H.
  - injection H as <-. exists []. symmetry. apply app_nil_r.
  - inv_bind H. destruct (loop_body_output_grows _ _ _ Hx) as [l1 H1].
    destruct (IH _ _ H) as [l2 H2].
    exists (l1 ++ l2). rewrite H2, H1. symmetry. apply app_assoc.
Qed.

(** X10: when the reducer returns on an input, it returns on every
    initial part of it, and the output for the initial part, its last
    record apart, is the beginning of the output for the whole input:
    only the last record can still change when more rows follow. *)
Theorem X10_emitted_records_are_final (rows1 rows2 : list row)
    (st2 : loop_state) :
  reduce_rows (rows1 ++ rows2) = Ok st2 ->
  exists st1 l,
    reduce_rows rows1 = Ok st1 /\
    output st2 = removelast (output st1) ++ l.
Proof.
  unfold reduce_rows. intros H. inv_bind H. injection H as <-.
  rewrite run_loop_app in Hx. inv_bind Hx. rename x0 into s1.
  destruct (run_loop_output_grows _ _ _ Hx) as [l Hl].
  rewrite Hx0. simpl bind.
  exists (flush s1), (l ++ [previous x]). split; [reflexivity|].
  unfold flush. simpl output. rewrite removelast_last, Hl.
  symmetry. apply app_assoc.
Qed.

Lemma X10_witness :
  exists st2 st1 l,
    reduce_rows ([sample_header; row_trade_1331; row_trade_next_day]
                 ++ [row_wallet; row_wallet]) = Ok st2 /\
    reduce_rows [sample_header; row_trade_1331; row_trade_next_day]
      = Ok st1 /\
    output st2 = removelast (output st1) ++ l.
Proof.
  with_ok (reduce_rows ([sample_header; row_trade_1331; row_trade_next_day]
                        ++ [row_wallet; row_wallet]))
    ltac:(fun st2 =>
      destruct (X10_emitted_records_are_final
                  [sample_header; row_trade_1331; row_trade_next_day]
                  [row_wallet; row_wallet] st2) as (st1 & l & H1 & H2);
      [reflexivity | exists st2, st1, l]).
  split; [reflexivity|]. split; [exact H1 | exact H2].
Defined.

End Further.

(** ** The text of a decimal read back *)

Section DecimalText.
Import PyStr.

Lemma N_of_digits_fold (s : string) :
  N_of_digits s = fold_left digit_step (list_ascii_of_string s) 0%N.
Proof. reflexivity. Qed.

Lemma fold_digits_pos (d : Decimal.uint) :
  forall p : positive,
    fold_left digit_step
      (list_ascii_of_string (NilEmpty.string_of_uint d)) (Npos p)
    = Npos (Pos.of_uint_acc d p).
Proof.
  induction d; intros p; cbn [NilEmpty.string_of_uint list_ascii_of_string
                              fold_left Pos.of_uint_acc];
    try reflexivity;
    rewrite <- IHd; f_equal; unfold digit_step;
    match goal with
    | |- context [N.of_nat ?x] =>
        let v := eval vm_compute in (N.of_nat x) in
        change (N.of_nat x) with v
    end; lia.
Qed.

Lemma fold_digits_zero (d : Decimal.uint) :
  fold_left digit_step
    (list_ascii_of_string (NilEmpty.string_of_uint d)) 0%N
  = Pos.of_uint d.
Proof.
  induction d; cbn [NilEmpty.string_of_uint list_ascii_of_string
                    fold_left Pos.of_uint];
    try reflexivity; try exact IHd;
    apply (fold_digits_pos d).
Qed.

Lemma N_of_digits_of_N (n : N) : N_of_digits (digits_of_N n) = n.
Proof.
  rewrite N_of_digits_fold. unfold digits_of_N, NilZero.string_of_uint.
  rewrite <- (DecimalN.Unsigned.of_to n) at 2.
  destruct (N.to_uint n) eqn:E; try (rewrite <- E at 1; rewrite E;
    apply fold_digits_zero).
  reflexivity.
Qed.

Lemma digit_char_plain (c : ascii) :
  is_digit c = true ->
  is_space c = false /\ Ascii.eqb c "_" = false /\
  Ascii.eqb c "-" = false /\ Ascii.eqb c "+" = false /\
  Ascii.eqb c "." = false /\ lower_char c = c.
Proof.
  destruct c as [[|] [|] [|] [|] [|] [|] [|] [|]]; vm_compute;
    intros H; try discriminate H; repeat split; reflexivity.
Qed.

Lemma all_digits_uint (d : Decimal.uint) :
  all_digits (NilEmpty.string_of_uint d) = true.
Proof. induction d; simpl; auto. Qed.

Lemma all_digits_digits_of_N (n : N) : all_digits (digits_of_N n) = true.
Proof.
  unfold digits_of_N, NilZero.string_of_uint.
  destruct (N.to_uint n) eqn:E; try reflexivity;
    rewrite <- E; apply all_digits_uint.
Qed.

Lemma digits_of_N_nonempty (n : N) : is_empty (digits_of_N n) = false.
Proof.
  unfold digits_of_N, NilZero.string_of_uint.
  destruct (N.to_uint n); reflexivity.
Qed.

Lemma all_digits_app (a b : string) :
  all_digits (a ++ b) = all_digits a && all_digits b.
Proof.
  induction a as [|c a IH]; simpl; [reflexivity|].
  rewrite IH. apply andb_assoc.
Qed.

Lemma plain_text_app (a b : string) :
  plain_text (a ++ b) = plain_text a && plain_text b.
Proof.
  induction a as [|c a IH]; simpl; [reflexivity|].
  rewrite IH. rewrite !andb_assoc. reflexivity.
Qed.

Lemma all_digits_plain (s : string) :
  all_digits s = true -> plain_text s = true.
Proof.
  induction s as [|c s IH]; simpl; [reflexivity|].
  intros H. apply andb_true_iff in H. destruct H as [Hc Hs].
  destruct (digit_char_plain c Hc) as (-> & -> & _). simpl. auto.
Qed.

Lemma all_digits_lower (s : string) : all_digits s = true -> lower s = s.
Proof.
  induction s as [|c s IH]; simpl; [reflexivity|].
  intros H. apply andb_true_iff in H. destruct H as [Hc Hs].
  destruct (digit_char_plain c Hc) as (_ & _ & _ & _ & _ & ->).
  rewrite (IH Hs). reflexivity.
Qed.

Lemma plain_last (s : string) : plain_text s = true -> last_is_space s = false.
Proof.
  induction s as [|c s IH]; [reflexivity|].
  intros H. cbn [plain_text] in H.
  apply andb_true_iff in H. destruct H as [H Hs].
  apply andb_true_iff in H. destruct H as [Hc _].
  destruct s as [|d s].
  - simpl. destruct (is_space c); [discriminate | reflexivity].
  - exact (IH Hs).
Qed.

Lemma strip_plain (s : string) : plain_text s = true -> strip s = s.
Proof.
  intros H. apply strip_id. split; [|apply plain_last, H].
  destruct s as [|c s]; [reflexivity|]. simpl in *.
  destruct (is_space c); [discriminate | reflexivity].
Qed.

Lemma remove_underscores_plain (s : string) :
  plain_text s = true -> remove_underscores s = s.
Proof.
  induction s as [|c s IH]; simpl; [reflexivity|].
  intros H. apply andb_true_iff in H. destruct H as [H Hs].
  apply andb_true_iff in H. destruct H as [_ Hu].
  destruct (Ascii.eqb c "_"); [discriminate|]. rewrite (IH Hs). reflexivity.
Qed.

Lemma chars_app (a b : string) :
  list_ascii_of_string (a ++ b)
  = (list_ascii_of_string a ++ list_ascii_of_string b)%list.
Proof. induction a; simpl; congruence. Qed.

Lemma fold_digits_leading_zeros (s : string) (k : nat) :
  fold_left digit_step
    (list_ascii_of_string (string_of_list_ascii (repeat "0"%char k) ++ s)) 0%N
  = N_of_digits s.
Proof.
  induction k as [|k IH]; simpl; [reflexivity | exact IH].
Qed.

Lemma N_of_digits_zeros (k : Z) (s : string) :
  N_of_digits (zeros k ++ s) = N_of_digits s.
Proof. apply fold_digits_leading_zeros. Qed.

Lemma N_of_digits_zero_prefix (s : string) :
  N_of_digits ("0" ++ s) = N_of_digits s.
Proof. reflexivity. Qed.

Lemma all_digits_zeros (k : Z) : all_digits (zeros k) = true.
Proof.
  unfold zeros. induction (Z.to_nat k); simpl; auto.
Qed.

Lemma Zlength_app (a b : string) : Zlength (a ++ b) = (Zlength a + Zlength b)%Z.
Proof.
  unfold Zlength. rewrite <- Nat2Z.inj_add. f_equal.
  induction a; simpl; congruence.
Qed.

Lemma Zlength_zeros (k : Z) : (0 <= k)%Z -> Zlength (zeros k) = k.
Proof.
  intros H. unfold Zlength, zeros.
  assert (E : forall n, String.length (string_of_list_ascii (repeat "0"%char n)) = n)
    by (induction n; simpl; congruence).
  rewrite E. apply Z2Nat.id, H.
Qed.

Lemma Zlength_nonneg (s : string) : (0 <= Zlength s)%Z.
Proof. unfold Zlength. lia. Qed.

Lemma Zlength_nonempty (s : string) :
  is_empty s = false -> (1 <= Zlength s)%Z.
Proof. destruct s; [discriminate|]. unfold Zlength. simpl. lia. Qed.

Lemma span_digits_app (a b : string) :
  all_digits a = true -> no_leading_digit b = true ->
  span_digits (a ++ b) = (a, b).
Proof.
  intros Ha Hb. induction a as [|c a IH]; simpl in *.
  - destruct b as [|d b]; [reflexivity|]. simpl in Hb.
    destruct (is_digit d) eqn:E; [discriminate|].
    simpl. rewrite E. reflexivity.
  - apply andb_true_iff in Ha. destruct Ha as [Hc Ha].
    rewrite Hc, (IH Ha). reflexivity.
Qed.

Lemma span_digits_all (a : string) :
  all_digits a = true -> span_digits a = (a, EmptyString).
Proof.
  intros H. rewrite <- (append_nil_r a) at 1.
  apply span_digits_app; [exact H | reflexivity].
Qed.

Lemma substring_full (s : string) : substring 0 (String.length s) s = s.
Proof. induction s; simpl; congruence. Qed.

Lemma substring_split (s : string) :
  forall n, (n <= String.length s)%nat ->
    substring 0 n s ++ substring n (String.length s - n) s = s.
Proof.
  induction s as [|c s IH]; intros n Hn.
  - destruct n; [reflexivity | simpl in Hn; lia].
  - destruct n as [|n].
    + rewrite Nat.sub_0_r, substring_full. reflexivity.
    + simpl in Hn. simpl. rewrite IH by lia. reflexivity.
Qed.

Lemma all_digits_substring (s : string) :
  all_digits s = true -> forall n m, all_digits (substring n m s) = true.
Proof.
  induction s as [|c s IH]; intros H n m.
  - destruct n, m; reflexivity.
  - simpl in H. apply andb_true_iff in H. destruct H as [Hc Hs].
    destruct n, m; simpl; auto.
    rewrite Hc. simpl. auto.
Qed.

Lemma length_substring_tail (s : string) :
  forall n, (n <= String.length s)%nat ->
    String.length (substring n (String.length s - n) s)
    = (String.length s - n)%nat.
Proof.
  induction s as [|c s IH]; intros n Hn.
  - destruct n; reflexivity.
  - destruct n as [|n].
    + rewrite Nat.sub_0_r, substring_full. reflexivity.
    + simpl in Hn. simpl. apply IH. lia.
Qed.

Lemma take_drop (k : Z) (s : string) :
  (0 <= k <= Zlength s)%Z -> take k s ++ drop k s = s.
Proof.
  intros H. unfold take, drop. apply substring_split.
  unfold Zlength in H. lia.
Qed.

Lemma Zlength_drop (k : Z) (s : string) :
  (0 <= k <= Zlength s)%Z -> Zlength (drop k s) = (Zlength s - k)%Z.
Proof.
  intros H. unfold Zlength, drop in *.
  rewrite length_substring_tail by lia. lia.
Qed.

Lemma take_nonempty (k : Z) (s : string) :
  (0 < k)%Z -> is_empty s = false -> is_empty (take k s) = false.
Proof.
  intros Hk Hs. unfold take. destruct s as [|c s]; [discriminate|].
  destruct (Z.to_nat k) eqn:E; [lia | reflexivity].
Qed.


Lemma parse_exp_format (z : Z) :
  Dec.parse_exp ("E" ++ Dec.format_plus_d z) = Some z /\
  plain_text ("E" ++ Dec.format_plus_d z) = true.
Proof.
  unfold Dec.format_plus_d. destruct (Z.ltb_spec z 0) as [Hz|Hz].
  - split.
    + cbn [append Dec.parse_exp]. change (Ascii.eqb (lower_char "E") "e") with true.
      cbv iota. cbn [Dec.parse_sign].
      rewrite (span_digits_all _ (all_digits_digits_of_N _)).
      rewrite digits_of_N_nonempty. cbn [is_empty orb negb].
      rewrite N_of_digits_of_N. f_equal. lia.
    + cbn. apply all_digits_plain, all_digits_digits_of_N.
  - split.
    + cbn [append Dec.parse_exp]. change (Ascii.eqb (lower_char "E") "e") with true.
      cbv iota. cbn [Dec.parse_sign].
      rewrite (span_digits_all _ (all_digits_digits_of_N _)).
      rewrite digits_of_N_nonempty. cbn [is_empty orb negb].
      rewrite N_of_digits_of_N. f_equal. lia.
    + cbn. apply all_digits_plain, all_digits_digits_of_N.
Qed.

(** Digits followed by the text of an exponent: nothing, or [E] and a
    signed number. *)
Lemma parse_finite_int (I X : string) (x : Z) :
  all_digits I = true -> is_empty I = false ->
  Dec.parse_exp X = Some x ->
  (X = EmptyString \/ exists t, X = String "E" t) ->
  Dec.parse_finite (I ++ X) = Some (N_of_digits I, x).
Proof.
  intros HI Hne Hx HX. unfold Dec.parse_finite.
  assert (Hnl : no_leading_digit X = true)
    by (destruct HX as [-> | [t ->]]; reflexivity).
  rewrite (span_digits_app I X HI Hnl).
  assert (Hdot : match X with
                 | String "." t => span_digits t
                 | _ => (EmptyString, X)
                 end = (EmptyString, X))
    by (destruct HX as [-> | [t ->]]; reflexivity).
  rewrite Hdot, Hne, Hx. cbn [andb]. rewrite append_nil_r.
  f_equal. f_equal. unfold Zlength. simpl. lia.
Qed.

Lemma parse_finite_frac (I F X : string) (x : Z) :
  all_digits I = true -> is_empty I = false -> all_digits F = true ->
  Dec.parse_exp X = Some x ->
  (X = EmptyString \/ exists t, X = String "E" t) ->
  Dec.parse_finite (I ++ "." ++ F ++ X)
  = Some (N_of_digits (I ++ F), (x - Zlength F)%Z).
Proof.
  intros HI Hne HF Hx HX. unfold Dec.parse_finite.
  rewrite (span_digits_app I ("." ++ F ++ X) HI eq_refl).
  assert (Hnl : no_leading_digit X = true)
    by (destruct HX as [-> | [t ->]]; reflexivity).
  cbn [append]. rewrite (span_digits_app F X HF Hnl).
  rewrite Hne, Hx. reflexivity.
Qed.


Lemma to_str_finite_shape (c : N) (e : Z) :
  exists I X x,
    all_digits I = true /\ is_empty I = false /\
    Dec.parse_exp X = Some x /\ plain_text X = true /\
    (X = EmptyString \/ exists t, X = String "E" t) /\
    ((Dec.to_str (Dec.Finite false c e) = I ++ X /\
      N_of_digits I = c /\ x = e) \/
     (exists F,
        all_digits F = true /\
        Dec.to_str (Dec.Finite false c e) = I ++ "." ++ F ++ X /\
        N_of_digits (I ++ F) = c /\ (x - Zlength F)%Z = e)).
Proof.
  unfold Dec.to_str.
  pose proof (all_digits_digits_of_N c) as HD.
  pose proof (digits_of_N_nonempty c) as HDn.
  pose proof (Zlength_nonempty _ HDn) as HL.
  pose proof (N_of_digits_of_N c) as HDv.
  set (D := digits_of_N c) in *. set (L := Zlength D) in *.
  cbv zeta.
  assert (Hnone : Dec.parse_exp EmptyString = Some 0%Z) by reflexivity.
  assert (Hplain : plain_text EmptyString = true) by reflexivity.
  destruct ((e <=? 0)%Z && (-6 <? e + L)%Z) eqn:Hc.
  - apply andb_true_iff in Hc. destruct Hc as [He _].
    apply Z.leb_le in He. rewrite Z.eqb_refl.
    destruct (Z.leb_spec (e + L) 0) as [H0|H0].
    + exists "0", EmptyString, 0%Z.
      do 5 (split; [auto|]). right. exists (zeros (- (e + L)) ++ D).
      split; [rewrite all_digits_app, all_digits_zeros, HD; reflexivity|].
      split; [cbn [append]; rewrite !append_nil_r; reflexivity|].
      split.
      * rewrite N_of_digits_zero_prefix, N_of_digits_zeros. exact HDv.
      * rewrite Zlength_app, Zlength_zeros by lia. fold L. lia.
    + destruct (Z.leb_spec L (e + L)) as [H1|H1].
      * assert (e = 0%Z) as -> by lia.
        replace (0 + L - L)%Z with 0%Z by lia.
        exists D, EmptyString, 0%Z.
        do 5 (split; [auto|]). left.
        split; [|split; [exact HDv | reflexivity]].
        change (zeros 0) with EmptyString. cbn [append].
        rewrite !append_nil_r. reflexivity.
      * exists (take (e + L) D), EmptyString, 0%Z.
        split; [apply all_digits_substring, HD|].
        split; [apply take_nonempty; [lia | exact HDn]|].
        do 3 (split; [auto|]).
        right. exists (drop (e + L) D).
        split; [apply all_digits_substring, HD|].
        split; [cbn [append]; rewrite !append_nil_r; reflexivity|].
        split.
        -- rewrite take_drop by (fold L; lia). exact HDv.
        -- rewrite Zlength_drop by (fold L; lia). fold L. lia.
  - assert (Hc' : (0 < e \/ e + L <= -6)%Z).
    { apply andb_false_iff in Hc. destruct Hc as [Hc|Hc].
      - apply Z.leb_gt in Hc. lia.
      - apply Z.ltb_ge in Hc. lia. }
    change (1 <=? 0)%Z with false. cbv iota.
    assert (Hexp : exists X x,
               (if (e + L =? 1)%Z then EmptyString
                else "E" ++ Dec.format_plus_d (e + L - 1)) = X /\
               Dec.parse_exp X = Some x /\ plain_text X = true /\
               (X = EmptyString \/ exists t, X = String "E" t) /\
               x = (e + L - 1)%Z).
    { destruct (Z.eqb_spec (e + L) 1) as [E1|E1].
      - exists EmptyString, 0%Z. do 4 (split; [auto|]). lia.
      - destruct (parse_exp_format (e + L - 1)) as [P1 P2].
        eexists. exists (e + L - 1)%Z. split; [reflexivity|].
        do 2 (split; [assumption|]).
        split; [right; eexists; reflexivity | reflexivity]. }
    destruct Hexp as (X & x & -> & Hx1 & Hx2 & Hx3 & ->).
    destruct (Z.leb_spec L 1) as [H1|H1].
    + assert (HL1 : (1 - L = 0)%Z) by lia. rewrite HL1.
      change (zeros 0) with EmptyString.
      exists D, X, (e + L - 1)%Z.
      do 5 (split; [assumption|]). left.
      split; [|split; [exact HDv | lia]].
      cbn [append]. rewrite !append_nil_r. reflexivity.
    + exists (take 1 D), X, (e + L - 1)%Z.
      split; [apply all_digits_substring, HD|].
      split; [apply take_nonempty; [lia | exact HDn]|].
      do 3 (split; [assumption|]).
      right. exists (drop 1 D).
      split; [apply all_digits_substring, HD|].
      split; [cbn [append]; reflexivity|].
      split.
      * rewrite take_drop by (fold L; lia). exact HDv.
      * rewrite Zlength_drop by (fold L; lia). fold L. lia.
Qed.


Lemma to_str_sign (s : bool) (c : N) (e : Z) :
  Dec.to_str (Dec.Finite s c e)
  = (if s then "-" else EmptyString) ++ Dec.to_str (Dec.Finite false c e).
Proof.
  destruct s; [|reflexivity]. unfold Dec.to_str. cbv zeta.
  repeat match goal with
         | |- context [if ?b then _ else _] => destruct b
         end; reflexivity.
Qed.

Lemma parse_sign_digit (ch : ascii) (rest : string) :
  is_digit ch = true ->
  Dec.parse_sign (String ch rest) = (false, String ch rest).
Proof.
  destruct ch as [[|] [|] [|] [|] [|] [|] [|] [|]]; vm_compute;
    intros H; try discriminate H; reflexivity.
Qed.

Lemma of_string_to_str_finite (s : bool) (c : N) (e : Z) :
  Dec.of_string (Dec.to_str (Dec.Finite s c e)) = Ok (Dec.Finite s c e).
Proof.
  destruct (to_str_finite_shape c e)
    as (I & X & x & HI & HIn & Hx & HXp & HX & Hshape).
  assert (Hbody :
    exists ch rest,
      Dec.to_str (Dec.Finite false c e) = String ch rest /\
      is_digit ch = true /\
      plain_text (Dec.to_str (Dec.Finite false c e)) = true /\
      Dec.parse_finite (Dec.to_str (Dec.Finite false c e)) = Some (c, e)).
  { destruct I as [|ch I']; [discriminate|].
    pose proof HI as HI'. cbn [all_digits] in HI'.
    apply andb_true_iff in HI'. destruct HI' as [Hch _].
    destruct Hshape as [(-> & Hv & He) | (F & HF & -> & Hv & He)].
    - exists ch, (I' ++ X). split; [reflexivity|]. split; [exact Hch|].
      split.
      + rewrite plain_text_app, (all_digits_plain _ HI), HXp. reflexivity.
      + rewrite (parse_finite_int _ _ _ HI HIn Hx HX). congruence.
    - exists ch, (I' ++ "." ++ F ++ X). split; [reflexivity|].
      split; [exact Hch|]. split.
      + rewrite !plain_text_app, (all_digits_plain _ HI),
          (all_digits_plain _ HF), HXp. reflexivity.
      + rewrite (parse_finite_frac _ _ _ _ HI HIn HF Hx HX). congruence. }
  destruct Hbody as (ch & rest & HB & Hch & Hplain & Hparse).
  rewrite to_str_sign. unfold Dec.of_string.
  assert (Hp : plain_text ((if s then "-" else EmptyString)
                           ++ Dec.to_str (Dec.Finite false c e)) = true).
  { rewrite plain_text_app, Hplain. destruct s; reflexivity. }
  rewrite (strip_plain _ Hp), (remove_underscores_plain _ Hp).
  destruct s.
  - cbn [append Dec.parse_sign]. rewrite Hparse. reflexivity.
  - cbn [append]. rewrite HB at 1. rewrite (parse_sign_digit _ _ Hch).
    rewrite <- HB, Hparse. reflexivity.
Qed.

Lemma parse_finite_not_number (ch : ascii) (t : string) :
  is_digit ch = false -> Ascii.eqb ch "." = false ->
  Dec.parse_finite (String ch t) = None.
Proof.
  destruct ch as [[|] [|] [|] [|] [|] [|] [|] [|]]; vm_compute;
    intros H1 H2; try discriminate H1; try discriminate H2; reflexivity.
Qed.

Lemma parse_special_nan (sg signal : bool) (P : string) :
  all_digits P = true ->
  Dec.parse_special sg ((if signal then "sNaN" else "NaN") ++ P)
  = Some (Dec.NaN sg signal (N_of_digits P)).
Proof.
  intros HP. unfold Dec.parse_special.
  rewrite lower_app, (all_digits_lower _ HP).
  assert (Hspan : span_digits (drop 3 (String "n" (String "a" (String "n" P))))
                  = (P, EmptyString)).
  { unfold drop. change (Z.to_nat 3) with 3%nat.
    change (String.length (String "n" (String "a" (String "n" P))) - 3)%nat
      with (String.length P - 0)%nat.
    rewrite Nat.sub_0_r. cbn [substring].
    rewrite substring_full. apply span_digits_all, HP. }
  destruct signal.
  - change (lower "sNaN") with "snan".
    cbn -[drop N_of_digits span_digits]. rewrite Hspan. reflexivity.
  - change (lower "NaN") with "nan".
    cbn -[drop N_of_digits span_digits]. rewrite Hspan. reflexivity.
Qed.

Lemma of_string_to_str_nan (s signal : bool) (p : N) :
  Dec.of_string (Dec.to_str (Dec.NaN s signal p)) = Ok (Dec.NaN s signal p).
Proof.
  unfold Dec.to_str.
  set (P := if (p =? 0)%N then EmptyString else digits_of_N p).
  assert (HP : all_digits P = true).
  { unfold P. destruct (p =? 0)%N; [reflexivity|].
    apply all_digits_digits_of_N. }
  assert (HPv : N_of_digits P = p).
  { unfold P. destruct (N.eqb_spec p 0) as [E|_];
      [rewrite E; reflexivity | apply N_of_digits_of_N]. }
  assert (Hpl : plain_text ((if s then "-" else EmptyString)
                  ++ (if signal then "sNaN" else "NaN") ++ P) = true).
  { rewrite !plain_text_app, (all_digits_plain _ HP).
    destruct s, signal; reflexivity. }
  unfold Dec.of_string.
  rewrite (strip_plain _ Hpl), (remove_underscores_plain _ Hpl).
  assert (Hsign : Dec.parse_sign ((if s then "-" else EmptyString)
                    ++ (if signal then "sNaN" else "NaN") ++ P)
                  = (s, (if signal then "sNaN" else "NaN") ++ P))
    by (destruct s, signal; reflexivity).
  rewrite Hsign.
  assert (Hfin : Dec.parse_finite ((if signal then "sNaN" else "NaN") ++ P)
                 = None)
    by (destruct signal; apply parse_finite_not_number; reflexivity).
  rewrite Hfin, (parse_special_nan s signal P HP), HPv. reflexivity.
Qed.

Lemma of_string_to_str (d : Dec.Decimal) :
  Dec.of_string (Dec.to_str d) = Ok d.
Proof.
  destruct d as [s c e|s|s signal p].
  - apply of_string_to_str_finite.
  - destruct s; reflexivity.
  - apply of_string_to_str_nan.
Qed.

Lemma to_str_nonempty (d : Dec.Decimal) : is_empty (Dec.to_str d) = false.
Proof.
  destruct d as [s c e|s|s signal p].
  - rewrite to_str_sign. destruct s; [reflexivity|]. cbn [append].
    destruct (to_str_finite_shape c e)
      as (I & X & x & HI & HIn & _ & _ & _ & Hshape).
    destruct I; [discriminate|].
    destruct Hshape as [(-> & _) | (F & _ & -> & _)]; reflexivity.
  - destruct s; reflexivity.
  - destruct s, signal; reflexivity.
Qed.

End DecimalText.

(** ** The written values read back *)

Section RoundTrip.
Local Open Scope list_scope.

Lemma amount_str_roundtrip (a : option Dec.Decimal) :
  amount_of_arg (AStr (amount_str a)) = Ok a.
Proof.
  destruct a as [d|]; [|reflexivity].
  unfold amount_of_arg. cbn [arg_truthy amount_str]. unfold PyStr.truthy.
  rewrite to_str_nonempty. cbn [negb Decimal_of_arg].
  rewrite of_string_to_str. reflexivity.
Qed.

Lemma Record_fields_roundtrip (r : record) :
  trimmed (date r) -> Record_of_row (Record_fields r) = Ok r.
Proof.
  intros Ht. unfold Record_fields, Record_of_row, Record_init.
  rewrite !amount_str_roundtrip. cbn [bind].
  rewrite (strip_id _ Ht). destruct r; reflexivity.
Qed.

(** X11: the twelve values that [__str__] writes for a record built by
    the constructor, given back to the constructor as a row, build the same
    record: every amount, absent or not, and every text field is read back
    as it was. *)
Theorem X11_written_values_read_back (r : record) :
  constructed r -> Record_of_row (Record_fields r) = Ok r.
Proof.
  intros H. apply Record_fields_roundtrip, constructed_trimmed, H.
Qed.

Lemma X11_witness :
  exists r,
    Record_of_row row_trade_next_day = Ok r /\
    Record_fields r
    = ["Trade"; "5"; "BTC"; "6"; "XMR"; "0.3"; "BTC"; "Poloniex"; "g"; "c";
       "31.08.2016 09:15"; "tx2"] /\
    Record_of_row (Record_fields r) = Ok r.
Proof.
  with_ok (Record_of_row row_trade_next_day) ltac:(fun r => exists r).
  split; [reflexivity|]. split; [reflexivity|].
  apply X11_written_values_read_back.
  apply (Record_of_row_constructed row_trade_next_day). reflexivity.
Defined.

Lemma is_lost_fee_key (a b : record) :
  key a = key b -> is_lost_fee a = is_lost_fee b.
Proof.
  intros H. apply key_inv in H.
  destruct H as (H1 & _ & _ & _ & H5 & _ & H7).
  unfold is_lost_fee. rewrite H1, H5, H7. reflexivity.
Qed.

Lemma Record_eq_key (a a' b b' : record) :
  key a = key a' -> key b = key b' -> Record_eq a b = Record_eq a' b'.
Proof.
  intros Ha Hb. rewrite (Record_eq_key_r a b b' Hb).
  rewrite (Record_eq_sym a b'), (Record_eq_key_r b' a a' Ha).
  apply Record_eq_sym.
Qed.

Lemma representatives_distinct (reps : list record)
    (gs : list (list record)) :
  Forall2 represents reps gs -> separated gs -> adjacent_distinct reps.
Proof.
  induction 1 as [|rep1 g1 reps gs (h1 & t1 & -> & Hk1 & _) Hrest IH];
    intros Hs; [exact I|].
  destruct Hs as [Hs1 Hs]. split; [|exact (IH Hs)].
  destruct Hrest as [|rep2 g2 reps' gs' (h2 & t2 & -> & Hk2 & _) _];
    [exact I|].
  destruct Hs1 as [Hl He]. split.
  - rewrite (is_lost_fee_key _ _ Hk2). exact Hl.
  - rewrite (Record_eq_key _ _ _ _ Hk2 Hk1). exact He.
Qed.

Lemma records_of_written_rows (reps : list record) :
  Forall constructed reps ->
  records_of_rows (map Record_fields reps) = Ok reps.
Proof.
  induction 1 as [|r reps Hr _ IH]; [reflexivity|].
  cbn [map records_of_rows].
  rewrite (Record_fields_roundtrip r (constructed_trimmed r Hr)), IH.
  reflexivity.
Qed.

(** X12: the reducer is idempotent on what it writes: the values written
    for the records of an output, read again as data rows under any header,
    give these same records as output, none merged and none dropped. *)
Theorem X12_reducer_is_idempotent (hd hd' : row) (rows : list row)
    (st : loop_state) :
  reduce_rows (hd :: rows) = Ok st ->
  exists st',
    reduce_rows (hd' :: map Record_fields (emitted (output st))) = Ok st' /\
    emitted (output st') = emitted (output st).
Proof.
  intros H.
  destruct (reduce_rows_groups hd rows st H)
    as (recs & gs & reps & _ & _ & _ & H4 & _ & H6 & H7 & H8).
  rewrite H4. apply reduce_rows_distinct.
  - apply records_of_written_rows, H8.
  - eapply representatives_distinct; eauto.
Qed.

Lemma X12_witness :
  exists st st',
    reduce_rows [sample_header; row_lost_fee; row_lost; row_trade_1331;
                 row_trade_1400; row_trade_next_day; row_wallet; row_wallet]
      = Ok st /\
    reduce_rows (sample_header :: map Record_fields (emitted (output st)))
      = Ok st' /\
    emitted (output st') = emitted (output st).
Proof.
  with_ok (reduce_rows [sample_header; row_lost_fee; row_lost;
                        row_trade_1331; row_trade_1400; row_trade_next_day;
                        row_wallet; row_wallet])
    ltac:(fun st =>
      destruct (X12_reducer_is_idempotent sample_header sample_header
                  [row_lost_fee; row_lost; row_trade_1331; row_trade_1400;
                   row_trade_next_day; row_wallet; row_wallet] st)
        as (st' & H1 & H2); [reflexivity | exists st, st']).
  split; [reflexivity|]. split; [exact H1 | exact H2].
Defined.

End RoundTrip.
